(** * Delivery landing page: store status, deep links and address formatting

    A shallow embedding of the helper functions of
    [client/src/pages/Home.tsx]:

    - [isRestaurantOpen] and [getTodayHours] (schedule evaluation),
    - [createWhatsAppLink] and [openWhatsAppDelivery] (deep links),
    - [getFullAddress], [getGoogleMapsUrl] and [getFormattedAddressLines]
      (address formatting).

    JavaScript strings are sequences of UTF-16 code units, and this is how
    they are represented here: the relational operators compare code units,
    and [encodeURIComponent] reads surrogate pairs and raises [URIError] on
    an unpaired surrogate.  The module-level constants of the page
    ([WHATSAPP_NUMBER], [OPENING_HOURS], [RESTAURANT_ADDRESS]) are section
    variables, so that every helper is a function of the configuration it
    closes over; the values the page ships with are given in module
    [Config]. *)

From Stdlib Require Import NArith ZArith Decimal Ascii Lia.
From stdpp Require Import gmap list strings.

Local Open Scope N_scope.

(** ** JavaScript strings *)

Module JS.

(** A string is a list of UTF-16 code units, each below [2^16]. *)
Abbreviation jsstring := (list N).

Definition is_code_unit (c : N) : bool := c <? 65536.

Definition code_units (s : jsstring) : bool := forallb is_code_unit s.

(** A string literal of the source made of ASCII characters only. *)
Fixpoint lit (s : string) : jsstring :=
  match s with
  | EmptyString => []
  | String a s' => N_of_ascii a :: lit s'
  end.

(** *** Relational comparison

    [IsLessThan] on two strings (ECMA-262, 7.2.13): if [py] is a prefix of
    [px] the answer is false, if [px] is a proper prefix of [py] it is true,
    and otherwise the first differing code units decide. *)
Fixpoint IsLessThan (px py : jsstring) : bool :=
  match px, py with
  | _, [] => false
  | [], _ :: _ => true
  | m :: px', n :: py' => if m =? n then IsLessThan px' py' else m <? n
  end.

(** [a < b] and [a >= b] on strings; [a >= b] is the negation of
    [IsLessThan a b], which is never undefined on strings. *)
Definition string_lt (a b : jsstring) : bool := IsLessThan a b.
Definition string_ge (a b : jsstring) : bool := negb (IsLessThan a b).

(** *** Number to string, for the non-negative integers [Date] returns *)

Fixpoint digits (d : Decimal.uint) : jsstring :=
  match d with
  | Nil => []
  | D0 d' => 48 :: digits d'
  | D1 d' => 49 :: digits d'
  | D2 d' => 50 :: digits d'
  | D3 d' => 51 :: digits d'
  | D4 d' => 52 :: digits d'
  | D5 d' => 53 :: digits d'
  | D6 d' => 54 :: digits d'
  | D7 d' => 55 :: digits d'
  | D8 d' => 56 :: digits d'
  | D9 d' => 57 :: digits d'
  end.

(** [String(n)] for an integer [n >= 0], that is ECMA-262's [ToString] on
    such a number: its decimal digits, and the single digit 0 for zero. *)
Definition ToString (n : N) : jsstring := digits (N.to_uint n).

(** [s.padStart(maxLength, fillString)]: [s] itself when it is long enough
    or the filler is empty, otherwise [s] preceded by the filler repeated
    and cut to the missing length. *)
Definition padStart (s : jsstring) (maxLength : nat) (fillString : jsstring)
  : jsstring :=
  let fillLen := (maxLength - length s)%nat in
  match fillLen, fillString with
  | O, _ => s
  | _, [] => s
  | _, _ => take fillLen (concat (replicate fillLen fillString)) ++ s
  end.

(** *** UTF-16 *)

Definition isLeadingSurrogate (c : N) : bool := (55296 <=? c) && (c <=? 56319).
Definition isTrailingSurrogate (c : N) : bool := (56320 <=? c) && (c <=? 57343).

(** [UTF16SurrogatePairToCodePoint]. *)
Definition UTF16SurrogatePairToCodePoint (lead trail : N) : N :=
  (lead - 55296) * 1024 + (trail - 56320) + 65536.

(** [UTF16EncodeCodePoint]: one code unit up to U+FFFF, a surrogate pair
    above. *)
Definition UTF16EncodeCodePoint (cp : N) : jsstring :=
  if cp <=? 65535 then [cp]
  else [(cp - 65536) / 1024 + 55296; (cp - 65536) mod 1024 + 56320].

(** [s.isWellFormed()]: no surrogate code unit stands alone. *)
Fixpoint isWellFormed (s : jsstring) : bool :=
  match s with
  | [] => true
  | c :: rest =>
      if isLeadingSurrogate c then
        match rest with
        | d :: rest' => isTrailingSurrogate d && isWellFormed rest'
        | [] => false
        end
      else negb (isTrailingSurrogate c) && isWellFormed rest
  end.

(** A Unicode scalar value: a code point that is not a surrogate. *)
Definition scalar (cp : N) : Prop :=
  cp < 1114112 /\ ~ (55296 <= cp <= 57343).

(** *** UTF-8 *)

(** The octets of the UTF-8 encoding of a code point. *)
Definition utf8_encode (cp : N) : list N :=
  if cp <? 128 then [cp]
  else if cp <? 2048 then [192 + cp / 64; 128 + cp mod 64]
  else if cp <? 65536 then
    [224 + cp / 4096; 128 + (cp / 64) mod 64; 128 + cp mod 64]
  else
    [240 + cp / 262144; 128 + (cp / 4096) mod 64;
     128 + (cp / 64) mod 64; 128 + cp mod 64].

(** The number of leading 1 bits of an octet. *)
Definition leadingOnes (B : N) : nat :=
  if B <? 128 then 0
  else if B <? 192 then 1
  else if B <? 224 then 2
  else if B <? 240 then 3
  else if B <? 248 then 4
  else 5.

Definition isContinuation (B : N) : bool := (128 <=? B) && (B <? 192).

(** The code point of a multi-octet sequence, if the sequence is a valid
    UTF-8 encoding: continuation octets of the form 10xxxxxx, no overlong
    form, no surrogate, nothing above U+10FFFF. *)
Definition utf8_decode (Octets : list N) : option N :=
  match Octets with
  | [B; c1] =>
      let V := (B - 192) * 64 + (c1 - 128) in
      if isContinuation c1 && (128 <=? V) then Some V else None
  | [B; c1; c2] =>
      let V := (B - 224) * 4096 + (c1 - 128) * 64 + (c2 - 128) in
      if isContinuation c1 && isContinuation c2 && (2048 <=? V)
         && negb ((55296 <=? V) && (V <=? 57343))
      then Some V else None
  | [B; c1; c2; c3] =>
      let V := (B - 240) * 262144 + (c1 - 128) * 4096
               + (c2 - 128) * 64 + (c3 - 128) in
      if isContinuation c1 && isContinuation c2 && isContinuation c3
         && (65536 <=? V) && (V <=? 1114111)
      then Some V else None
  | _ => None
  end.

(** *** [encodeURIComponent] and [decodeURIComponent] (ECMA-262, 19.2.6)

    A result of [None] stands for the [URIError] the function throws. *)

(** The characters [encodeURIComponent] leaves as they are: ASCII letters,
    decimal digits and [- _ . ! ~ * ' ( )]. *)
Definition uriUnescaped (c : N) : bool :=
  ((65 <=? c) && (c <=? 90)) || ((97 <=? c) && (c <=? 122))
  || ((48 <=? c) && (c <=? 57))
  || (c =? 45) || (c =? 95) || (c =? 46) || (c =? 33) || (c =? 126)
  || (c =? 42) || (c =? 39) || (c =? 40) || (c =? 41).

(** An upper-case hexadecimal digit. *)
Definition hexDigit (d : N) : N := if d <? 10 then 48 + d else 55 + d.

(** The escape sequence of one octet: [%XX]. *)
Definition escapeOctet (B : N) : jsstring :=
  [37; hexDigit (B / 16); hexDigit (B mod 16)].

Definition escapeOctets (Octets : list N) : jsstring :=
  concat (map escapeOctet Octets).

(** [Encode(string, extraUnescaped)] with the unescaped set of
    [encodeURIComponent]: an unescaped code unit is copied, any other is
    read as a code point (a surrogate pair counts as one), which fails on
    an unpaired surrogate, and the octets of its UTF-8 encoding are
    escaped. *)
Fixpoint encodeURIComponent (s : jsstring) : option jsstring :=
  match s with
  | [] => Some []
  | C :: rest =>
      if uriUnescaped C then (C ::.) <$> encodeURIComponent rest
      else if isLeadingSurrogate C then
        match rest with
        | d :: rest' =>
            if isTrailingSurrogate d then
              (escapeOctets (utf8_encode (UTF16SurrogatePairToCodePoint C d)) ++.)
                <$> encodeURIComponent rest'
            else None
        | [] => None
        end
      else if isTrailingSurrogate C then None
      else (escapeOctets (utf8_encode C) ++.) <$> encodeURIComponent rest
  end.

(** The value of a hexadecimal digit, in either case. *)
Definition hexValue (c : N) : option N :=
  if (48 <=? c) && (c <=? 57) then Some (c - 48)
  else if (65 <=? c) && (c <=? 70) then Some (c - 55)
  else if (97 <=? c) && (c <=? 102) then Some (c - 87)
  else None.

(** [ParseHexOctet] on the two code units after a percent sign. *)
Definition ParseHexOctet (h l : N) : option N :=
  match hexValue h, hexValue l with
  | Some hv, Some lv => Some (hv * 16 + lv)
  | _, _ => None
  end.

(** Reads [n] further escape sequences, the continuation octets. *)
Fixpoint continuationOctets (n : nat) (s : jsstring)
  : option (list N * jsstring) :=
  match n with
  | O => Some ([], s)
  | S n' =>
      match s with
      | 37 :: h :: l :: rest =>
          match ParseHexOctet h l with
          | Some B =>
              match continuationOctets n' rest with
              | Some (Octets, rest') => Some (B :: Octets, rest')
              | None => None
              end
          | None => None
          end
      | _ => None
      end
  end.

(** [Decode(string, preserveEscapeSet)] with the empty set of
    [decodeURIComponent].  Each round of the loop consumes at least one
    code unit; [fuel] bounds the number of rounds. *)
Fixpoint Decode (fuel : nat) (s : jsstring) : option jsstring :=
  match fuel with
  | O => None
  | S fuel' =>
      match s with
      | [] => Some []
      | C :: rest =>
          if C =? 37 then
            match rest with
            | h :: l :: rest2 =>
                match ParseHexOctet h l with
                | Some B =>
                    match leadingOnes B with
                    | O => (B ::.) <$> Decode fuel' rest2
                    | 1%nat => None
                    | S n' =>
                        if (4 <? S n')%nat then None
                        else
                          match continuationOctets n' rest2 with
                          | Some (Octets, rest3) =>
                              match utf8_decode (B :: Octets) with
                              | Some V =>
                                  (UTF16EncodeCodePoint V ++.)
                                    <$> Decode fuel' rest3
                              | None => None
                              end
                          | None => None
                          end
                    end
                | None => None
                end
            | _ => None
            end
          else (C ::.) <$> Decode fuel' rest
      end
  end.

Definition decodeURIComponent (s : jsstring) : option jsstring :=
  Decode (S (length s)) s.

End JS.

Import JS.

(** ** The lexicographic order on strings, as a relation

    This is the order the specification speaks of; [IsLessThan] decides
    it (lemma [IsLessThan_spec] below). *)
Inductive lex_lt : jsstring -> jsstring -> Prop :=
| lex_lt_nil y ys : lex_lt [] (y :: ys)
| lex_lt_head x y xs ys : x < y -> lex_lt (x :: xs) (y :: ys)
| lex_lt_tail x xs ys : lex_lt xs ys -> lex_lt (x :: xs) (x :: ys).

Definition lex_le (a b : jsstring) : Prop := lex_lt a b \/ a = b.

(** ** Dates

    What the page reads off [new Date()]: the local weekday (0 = Sunday),
    hour and minute. *)
Record Date := mkDate {
  getDay : N;
  getHours : N;
  getMinutes : N
}.

Definition valid_date (now : Date) : bool :=
  (getDay now <? 7) && (getHours now <? 24) && (getMinutes now <? 60).

(** ** Configuration records *)

(** An entry of [OPENING_HOURS]. *)
Record Hours := mkHours {
  open : jsstring;
  close : jsstring
}.

(** [RESTAURANT_ADDRESS]; the coordinates are only handed to the map
    widget and take no part in the formatting. *)
Record Address := mkAddress {
  street : jsstring;
  neighborhood : jsstring;
  city : jsstring;
  state : jsstring;
  zipcode : jsstring
}.

(** ** Schedule evaluation *)

Section Schedule.

Variable OPENING_HOURS : gmap N Hours.

(** The [currentTime] of [isRestaurantOpen]. *)
Definition currentTime (now : Date) : jsstring :=
  padStart (ToString (getHours now)) 2 (lit "0") ++ lit ":"
  ++ padStart (ToString (getMinutes now)) 2 (lit "0").

Definition isRestaurantOpen (now : Date) : bool :=
  let dayOfWeek := getDay now in
  let currentTime := currentTime now in
  match OPENING_HOURS !! dayOfWeek with
  | None => false
  | Some hours =>
      string_ge currentTime (open hours) && string_lt currentTime (close hours)
  end.

Definition getTodayHours (now : Date) : jsstring :=
  let dayOfWeek := getDay now in
  match OPENING_HOURS !! dayOfWeek with
  | Some hours => open hours ++ lit " - " ++ close hours
  | None => lit "Fechado"
  end.

End Schedule.

(** ** Deep links and address formatting *)

(** A call [window.open(url, target)]. *)
Inductive Effect :=
| window_open (url target : jsstring).

Section Links.

Variable WHATSAPP_NUMBER : jsstring.
Variable RESTAURANT_ADDRESS : Address.

(** [price] is [None] when the optional argument is left out
    ([undefined]); the conditional tests its truthiness, and among strings
    only the empty one is falsy. *)
Definition truthy (price : option jsstring) : bool :=
  match price with
  | None => false
  | Some [] => false
  | Some (_ :: _) => true
  end.

Definition createWhatsAppLink (product : jsstring) (price : option jsstring)
  : option jsstring :=
  let message :=
    if truthy price
    then lit "Quero pedir: " ++ product ++ lit " (R$ "
         ++ default [] price ++ lit ")"
    else lit "Quero pedir: " ++ product in
  (fun encoded => lit "https://wa.me/" ++ WHATSAPP_NUMBER ++ lit "?text="
                  ++ encoded)
    <$> encodeURIComponent message.

Definition getFullAddress : jsstring :=
  street RESTAURANT_ADDRESS ++ lit ", " ++ neighborhood RESTAURANT_ADDRESS
  ++ lit ", " ++ city RESTAURANT_ADDRESS ++ lit " - "
  ++ state RESTAURANT_ADDRESS.

Definition getGoogleMapsUrl : option jsstring :=
  (fun address => lit "https://www.google.com/maps/search/" ++ address)
    <$> encodeURIComponent getFullAddress.

(** The greeting of [openWhatsAppDelivery], with its accented letters as
    code units: a-acute U+00E1, e-circumflex U+00EA, c-cedilla U+00E7. *)
Definition deliveryGreeting : jsstring :=
  lit "Ol" ++ [225] ++ lit "! Voc" ++ [234] ++ lit "s fazem entrega no meu endere"
  ++ [231] ++ lit "o? ".

Definition openWhatsAppDelivery : option Effect :=
  let message := deliveryGreeting ++ getFullAddress in
  (fun encoded =>
     window_open
       (lit "https://wa.me/" ++ WHATSAPP_NUMBER ++ lit "?text=" ++ encoded)
       (lit "_blank"))
    <$> encodeURIComponent message.

Definition getFormattedAddressLines : list jsstring :=
  [ street RESTAURANT_ADDRESS;
    neighborhood RESTAURANT_ADDRESS ++ lit ", " ++ city RESTAURANT_ADDRESS
    ++ lit " - " ++ state RESTAURANT_ADDRESS;
    zipcode RESTAURANT_ADDRESS ].

End Links.

(** ** The configuration the page ships with *)

Module Config.

Definition WHATSAPP_NUMBER : jsstring := lit "5511999999999".

Definition OPENING_HOURS : gmap N Hours :=
  <[0 := mkHours (lit "11:00") (lit "23:00")]>
  (<[1 := mkHours (lit "11:00") (lit "23:30")]>
  (<[2 := mkHours (lit "11:00") (lit "23:30")]>
  (<[3 := mkHours (lit "11:00") (lit "23:30")]>
  (<[4 := mkHours (lit "11:00") (lit "23:30")]>
  (<[5 := mkHours (lit "11:00") (lit "00:30")]>
  (<[6 := mkHours (lit "11:00") (lit "00:30")]> ∅)))))).

(** The city has an a-tilde, U+00E3. *)
Definition RESTAURANT_ADDRESS : Address :=
  {| street := lit "Rua das Flores, 123";
     neighborhood := lit "Centro";
     city := lit "S" ++ [227] ++ lit "o Paulo";
     state := lit "SP";
     zipcode := lit "01310-100" |}.

End Config.

(** An address whose street is a single unpaired leading surrogate. *)
Definition unpaired_street_address : Address :=
  {| street := [55296];
     neighborhood := lit "Centro";
     city := lit "Santos";
     state := lit "SP";
     zipcode := lit "11010-000" |}.

(** ** Click handlers of the address card *)

(** A call [navigator.clipboard.writeText(text)]. *)
Inductive ClipboardEffect :=
| clipboard_writeText (text : jsstring).

Section Handlers.

Variable RESTAURANT_ADDRESS : Address.

(** Whether [navigator.clipboard] is defined; outside a secure context it
    is [undefined]. *)
Variable navigator_clipboard : bool.

(** Reading [writeText] off an undefined [navigator.clipboard] throws a
    [TypeError], for which [None] stands here; otherwise [writeText] is
    called with the single line of the address, and the promise it returns
    is dropped. *)
Definition copyAddressToClipboard : option ClipboardEffect :=
  if navigator_clipboard
  then Some (clipboard_writeText (getFullAddress RESTAURANT_ADDRESS))
  else None.

(** The argument is evaluated first: when [getGoogleMapsUrl] throws, no
    window is opened. *)
Definition openGoogleMaps : option Effect :=
  (fun url => window_open url (lit "_blank"))
    <$> getGoogleMapsUrl RESTAURANT_ADDRESS.

End Handlers.

(** ** Times of day, for stating properties *)

(** The zero-padded text [HH:MM] of an hour and a minute. *)
Definition HHMM (h m : N) : jsstring :=
  [48 + h / 10; 48 + h mod 10; 58; 48 + m / 10; 48 + m mod 10].

(** The minutes since midnight of a date. *)
Definition minutes (now : Date) : N := getHours now * 60 + getMinutes now.

(** What an encoded text is made of: unescaped characters and the
    percent sign. *)
Definition escaped (c : N) : Prop := uriUnescaped c = true \/ c = 37.

(** An address whose four text fields of the single line are well-formed
    strings. *)
Definition well_formed_address (addr : Address) : bool :=
  isWellFormed (street addr) && isWellFormed (neighborhood addr)
  && isWellFormed (city addr) && isWellFormed (state addr).

(** The characters that would end or split a query value or a path
    segment: space, [#], [&], [+], [/], [=], [?]. *)
Definition uriDelimiters : jsstring := [32; 35; 38; 43; 47; 61; 63].

(** ** Arithmetic on code units and octets *)

Ltac Zify.zify_post_hook ::= Z.to_euclidean_division_equations.

(** Boolean tests on numbers, read as propositions. *)
Create Rewrite HintDb nbool.

#[local] Hint Rewrite
  orb_true_iff andb_true_iff orb_false_iff andb_false_iff
  negb_true_iff negb_false_iff
  N.leb_le N.ltb_lt N.eqb_eq N.leb_gt N.ltb_ge N.eqb_neq
  Nat.ltb_lt Nat.ltb_ge : nbool.

Ltac nbool := autorewrite with nbool in *; try lia.

(** Splits the comparisons of the goal into their two cases and leaves the
    arithmetic to [lia]. *)
Ltac n_cases :=
  repeat match goal with
  | |- context [?a <? ?b] => destruct (N.ltb_spec a b)
  | |- context [?a <=? ?b] => destruct (N.leb_spec a b)
  | |- context [?a =? ?b] => destruct (N.eqb_spec a b)
  end;
  cbn [andb orb negb]; try discriminate; try (f_equal; lia); try lia.

(** ** Sanity checks on the embedding *)

Example currentTime_pads :
  currentTime (mkDate 1 9 5) = lit "09:05".
Proof. reflexivity. Qed.

Example encode_order_message :
  encodeURIComponent (lit "Quero pedir: Pizza (R$ 39,90)")
  = Some (lit "Quero%20pedir%3A%20Pizza%20(R%24%2039%2C90)").
Proof. reflexivity. Qed.

Example encode_city :
  encodeURIComponent (city Config.RESTAURANT_ADDRESS)
  = Some (lit "S%C3%A3o%20Paulo").
Proof. reflexivity. Qed.

Example decode_city :
  decodeURIComponent (lit "S%c3%A3o%20Paulo")
  = Some (city Config.RESTAURANT_ADDRESS).
Proof. reflexivity. Qed.

Example encode_astral :
  encodeURIComponent [55357; 56832] = Some (lit "%F0%9F%98%80")
  /\ decodeURIComponent (lit "%F0%9F%98%80") = Some [55357; 56832].
Proof. split; reflexivity. Qed.

Example encode_unpaired : encodeURIComponent [55357] = None.
Proof. reflexivity. Qed.

Example decode_overlong : decodeURIComponent (lit "%C0%80") = None.
Proof. reflexivity. Qed.

Lemma hexValue_hexDigit d : d < 16 -> hexValue (hexDigit d) = Some d.
Proof. intros Hd. unfold hexValue, hexDigit. n_cases. Qed.

Lemma ParseHexOctet_escape B :
  B < 256 -> ParseHexOctet (hexDigit (B / 16)) (hexDigit (B mod 16)) = Some B.
Proof.
  intros HB. unfold ParseHexOctet.
  rewrite !hexValue_hexDigit by lia. f_equal. lia.
Qed.

Lemma uriUnescaped_not_percent C : uriUnescaped C = true -> (C =? 37) = false.
Proof. unfold uriUnescaped. intros H. nbool. Qed.

Lemma uriUnescaped_not_surrogate C :
  uriUnescaped C = true ->
  isLeadingSurrogate C = false /\ isTrailingSurrogate C = false.
Proof.
  unfold uriUnescaped, isLeadingSurrogate, isTrailingSurrogate.
  intros H. nbool.
Qed.

Lemma continuationOctets_escape Octets rest :
  Forall (fun B => B < 256) Octets ->
  continuationOctets (length Octets) (escapeOctets Octets ++ rest)
  = Some (Octets, rest).
Proof.
  induction 1 as [|B Octets HB _ IH]; [reflexivity|].
  cbn [length continuationOctets escapeOctets map concat escapeOctet app].
  rewrite ParseHexOctet_escape by assumption.
  fold (escapeOctets Octets). now rewrite IH.
Qed.

(** One round of [Decode] on an escaped code point of several octets. *)
Lemma Decode_multi fuel B Octets n V rest :
  Forall (fun B => B < 256) (B :: Octets) ->
  leadingOnes B = S (S n) -> length Octets = S n -> (n < 3)%nat ->
  utf8_decode (B :: Octets) = Some V ->
  Decode (S fuel) (escapeOctets (B :: Octets) ++ rest)
  = (UTF16EncodeCodePoint V ++.) <$> Decode fuel rest.
Proof.
  intros Hoct Hlead Hlen Hn HV.
  inversion Hoct as [|? ? HB Hrest]; subst.
  cbn [escapeOctets map concat escapeOctet app Decode].
  fold (escapeOctets Octets).
  change (37 =? 37) with true. cbn match.
  rewrite ParseHexOctet_escape, Hlead by assumption.
  replace (4 <? S (S n))%nat with false by (symmetry; apply Nat.ltb_ge; lia).
  rewrite <- Hlen, continuationOctets_escape, HV by assumption.
  reflexivity.
Qed.

Lemma isContinuation_tail x : isContinuation (128 + x mod 64) = true.
Proof. unfold isContinuation. nbool. Qed.

Lemma leb_true a b : a <= b -> (a <=? b) = true.
Proof. apply N.leb_le. Qed.

(** The UTF-8 encoding of a scalar value above ASCII is decoded to it. *)
Lemma utf8_decode_encode cp :
  scalar cp -> 128 <= cp ->
  exists B Octets n,
    utf8_encode cp = B :: Octets
    /\ Forall (fun B => B < 256) (B :: Octets)
    /\ leadingOnes B = S (S n) /\ length Octets = S n /\ (n < 3)%nat
    /\ utf8_decode (B :: Octets) = Some cp.
Proof.
  intros [Hmax Hsur] Hmin. unfold utf8_encode.
  destruct (N.ltb_spec cp 128); [lia|].
  destruct (N.ltb_spec cp 2048); [|destruct (N.ltb_spec cp 65536)].
  - eexists _, _, 0%nat. split; [reflexivity|].
    split; [repeat constructor; lia|].
    split; [unfold leadingOnes; n_cases|].
    do 2 (split; [reflexivity || lia|]).
    unfold utf8_decode. rewrite !isContinuation_tail.
    replace ((192 + cp / 64 - 192) * 64 + (128 + cp mod 64 - 128))
      with cp by lia.
    now rewrite leb_true.
  - eexists _, _, 1%nat. split; [reflexivity|].
    split; [repeat constructor; lia|].
    split; [unfold leadingOnes; n_cases|].
    do 2 (split; [reflexivity || lia|]).
    unfold utf8_decode. rewrite !isContinuation_tail.
    replace ((224 + cp / 4096 - 224) * 4096
             + (128 + (cp / 64) mod 64 - 128) * 64 + (128 + cp mod 64 - 128))
      with cp by lia.
    rewrite leb_true by lia.
    replace ((55296 <=? cp) && (cp <=? 57343)) with false; [reflexivity|].
    symmetry. nbool.
  - eexists _, _, 2%nat. split; [reflexivity|].
    split; [repeat constructor; lia|].
    split; [unfold leadingOnes; n_cases|].
    do 2 (split; [reflexivity || lia|]).
    unfold utf8_decode. rewrite !isContinuation_tail.
    replace ((240 + cp / 262144 - 240) * 262144
             + (128 + (cp / 4096) mod 64 - 128) * 4096
             + (128 + (cp / 64) mod 64 - 128) * 64 + (128 + cp mod 64 - 128))
      with cp by lia.
    now rewrite !leb_true by lia.
Qed.

Lemma Decode_code_point fuel cp rest :
  scalar cp ->
  Decode (S fuel) (escapeOctets (utf8_encode cp) ++ rest)
  = (UTF16EncodeCodePoint cp ++.) <$> Decode fuel rest.
Proof.
  intros Hcp. destruct (N.lt_ge_cases cp 128) as [Hascii|Hhigh].
  - unfold utf8_encode, UTF16EncodeCodePoint.
    replace (cp <? 128) with true by (symmetry; nbool).
    replace (cp <=? 65535) with true by (symmetry; nbool).
    cbn [escapeOctets map concat escapeOctet app Decode].
    change (37 =? 37) with true. cbn match.
    rewrite ParseHexOctet_escape by lia.
    unfold leadingOnes. replace (cp <? 128) with true by (symmetry; nbool).
    reflexivity.
  - destruct (utf8_decode_encode cp Hcp Hhigh)
      as (B & Octets & n & -> & Hoct & Hlead & Hlen & Hn & HV).
    now apply Decode_multi with (n := n).
Qed.

Lemma surrogate_pair_scalar C d :
  isLeadingSurrogate C = true -> isTrailingSurrogate d = true ->
  scalar (UTF16SurrogatePairToCodePoint C d)
  /\ UTF16EncodeCodePoint (UTF16SurrogatePairToCodePoint C d) = [C; d].
Proof.
  unfold isLeadingSurrogate, isTrailingSurrogate, scalar,
    UTF16SurrogatePairToCodePoint, UTF16EncodeCodePoint.
  intros HC Hd. nbool. split; [lia|].
  replace (_ <=? 65535) with false by (symmetry; nbool).
  f_equal; [lia|f_equal; lia].
Qed.

Lemma code_unit_scalar C :
  is_code_unit C = true ->
  isLeadingSurrogate C = false -> isTrailingSurrogate C = false ->
  scalar C /\ UTF16EncodeCodePoint C = [C].
Proof.
  unfold is_code_unit, isLeadingSurrogate, isTrailingSurrogate, scalar,
    UTF16EncodeCodePoint.
  intros HC Hl Ht. nbool. split; [lia|].
  now replace (C <=? 65535) with true by (symmetry; nbool).
Qed.

Lemma escapeOctets_utf8_length cp :
  (0 < length (escapeOctets (utf8_encode cp)))%nat.
Proof.
  unfold utf8_encode.
  repeat match goal with |- context [if ?b then _ else _] => destruct b end;
    cbn; lia.
Qed.

(** ** Decoding undoes encoding *)

(** Whatever [encodeURIComponent] returns is decoded back to the string it
    was given, with any amount of fuel above the length of the encoding. *)
Lemma Decode_encodeURIComponent (s : jsstring) :
  code_units s = true ->
  forall e, encodeURIComponent s = Some e ->
  forall fuel, (length e < fuel)%nat -> Decode fuel e = Some s.
Proof.
  remember (length s) as n eqn:Hn. revert s Hn.
  induction n as [n IH] using lt_wf_ind.
  intros s Hn Hunits e Henc fuel Hfuel.
  destruct fuel as [|fuel]; [lia|].
  destruct s as [|C rest]; cbn in Henc.
  { now inversion Henc. }
  cbn in Hunits. apply andb_true_iff in Hunits as [HC Hunits].
  destruct (uriUnescaped C) eqn:Hun.
  - (* an unescaped character *)
    destruct (encodeURIComponent rest) as [e'|] eqn:He'; [|discriminate].
    cbn in Henc. inversion Henc; subst e. cbn [Decode].
    rewrite (uriUnescaped_not_percent _ Hun).
    cbn in Hfuel, Hn.
    assert (Decode fuel e' = Some rest) as ->; [|reflexivity].
      apply (IH (length rest)); [lia|reflexivity|assumption|assumption|lia].
  - destruct (isLeadingSurrogate C) eqn:Hlead.
    + (* a surrogate pair *)
      destruct rest as [|d rest']; [discriminate|].
      destruct (isTrailingSurrogate d) eqn:Htrail; [|discriminate].
      cbn in Hunits. apply andb_true_iff in Hunits as [Hd Hunits].
      destruct (encodeURIComponent rest') as [e'|] eqn:He'; [|discriminate].
      cbn in Henc. inversion Henc; subst e.
      destruct (surrogate_pair_scalar C d Hlead Htrail) as [Hcp Hpair].
      rewrite Decode_code_point, Hpair by assumption.
      rewrite length_app in Hfuel. cbn in Hn.
      pose proof (escapeOctets_utf8_length (UTF16SurrogatePairToCodePoint C d)).
      assert (Decode fuel e' = Some rest') as ->; [|reflexivity].
      apply (IH (length rest')); [lia|reflexivity|assumption|assumption|lia].
    + (* a code unit of the basic plane *)
      destruct (isTrailingSurrogate C) eqn:Htrail; [discriminate|].
      destruct (encodeURIComponent rest) as [e'|] eqn:He'; [|discriminate].
      cbn in Henc. inversion Henc; subst e.
      destruct (code_unit_scalar C HC Hlead Htrail) as [Hcp Hone].
      rewrite Decode_code_point, Hone by assumption.
      rewrite length_app in Hfuel. cbn in Hn.
      pose proof (escapeOctets_utf8_length C).
      assert (Decode fuel e' = Some rest) as ->; [|reflexivity].
      apply (IH (length rest)); [lia|reflexivity|assumption|assumption|lia].
Qed.

Lemma decode_encodeURIComponent (s e : jsstring) :
  code_units s = true -> encodeURIComponent s = Some e ->
  decodeURIComponent e = Some s.
Proof.
  intros Hunits Henc. unfold decodeURIComponent.
  apply Decode_encodeURIComponent with (s := s); [assumption..|lia].
Qed.

(** [encodeURIComponent] returns exactly on the well-formed strings. *)
Lemma encodeURIComponent_is_Some (s : jsstring) :
  is_Some (encodeURIComponent s) <-> isWellFormed s = true.
Proof.
  remember (length s) as n eqn:Hn. revert s Hn.
  induction n as [n IH] using lt_wf_ind. intros s Hn.
  destruct s as [|C rest]; cbn [encodeURIComponent isWellFormed].
  { split; [reflexivity|intros _; eexists; reflexivity]. }
  cbn in Hn.
  destruct (uriUnescaped C) eqn:Hun.
  - destruct (uriUnescaped_not_surrogate _ Hun) as [-> ->]. cbn.
    rewrite fmap_is_Some. apply (IH (length rest)); [lia|reflexivity].
  - destruct (isLeadingSurrogate C) eqn:Hlead.
    + destruct rest as [|d rest'].
      { split; [intros [? ?]|]; discriminate. }
      destruct (isTrailingSurrogate d); cbn.
      * rewrite fmap_is_Some. cbn in Hn.
        apply (IH (length rest')); [lia|reflexivity].
      * split; [intros [? ?]|]; discriminate.
    + destruct (isTrailingSurrogate C); cbn.
      * split; [intros [? ?]|]; discriminate.
      * rewrite fmap_is_Some. apply (IH (length rest)); [lia|reflexivity].
Qed.

(** ** Well-formed strings *)

(** Encoding goes through concatenation, when the first part is encoded
    on its own, that is, does not end in the middle of a surrogate pair. *)
Lemma encodeURIComponent_app (a b ea eb : jsstring) :
  encodeURIComponent a = Some ea -> encodeURIComponent b = Some eb ->
  encodeURIComponent (a ++ b) = Some (ea ++ eb).
Proof.
  intros Ha Hb. revert ea Ha.
  remember (length a) as n eqn:Hn. revert a Hn.
  induction n as [n IH] using lt_wf_ind. intros a Hn ea Ha.
  destruct a as [|C rest]; cbn in Ha |- *.
  { now inversion Ha. }
  cbn in Hn. destruct (uriUnescaped C).
  - destruct (encodeURIComponent rest) as [e'|] eqn:He'; [|discriminate].
    cbn in Ha. inversion Ha; subst ea.
    now rewrite (IH (length rest) ltac:(lia) rest eq_refl e' He').
  - destruct (isLeadingSurrogate C).
    + destruct rest as [|d rest']; [discriminate|]. cbn in Hn |- *.
      destruct (isTrailingSurrogate d); [|discriminate].
      destruct (encodeURIComponent rest') as [e'|] eqn:He'; [|discriminate].
      cbn in Ha. inversion Ha; subst ea.
      rewrite (IH (length rest') ltac:(lia) rest' eq_refl e' He').
      cbn. now rewrite app_assoc.
    + destruct (isTrailingSurrogate C); [discriminate|].
      destruct (encodeURIComponent rest) as [e'|] eqn:He'; [|discriminate].
      cbn in Ha. inversion Ha; subst ea.
      rewrite (IH (length rest) ltac:(lia) rest eq_refl e' He').
      cbn. now rewrite app_assoc.
Qed.

Lemma isWellFormed_app (a b : jsstring) :
  isWellFormed a = true -> isWellFormed b = true ->
  isWellFormed (a ++ b) = true.
Proof.
  intros Ha Hb.
  apply encodeURIComponent_is_Some in Ha as [ea Ha].
  apply encodeURIComponent_is_Some in Hb as [eb Hb].
  apply encodeURIComponent_is_Some. exists (ea ++ eb).
  now apply encodeURIComponent_app.
Qed.

Lemma code_units_app (a b : jsstring) :
  code_units (a ++ b) = code_units a && code_units b.
Proof. apply forallb_app. Qed.

(** A string that can be encoded can be decoded again, to itself. *)
Lemma encodeURIComponent_roundtrip (s : jsstring) :
  code_units s = true -> isWellFormed s = true ->
  exists e, encodeURIComponent s = Some e /\ decodeURIComponent e = Some s.
Proof.
  intros Hunits Hwf.
  apply encodeURIComponent_is_Some in Hwf as [e He].
  exists e. split; [assumption|]. now apply decode_encodeURIComponent with (s := s).
Qed.

(** ** The order of strings *)

Lemma IsLessThan_spec (a b : jsstring) : IsLessThan a b = true <-> lex_lt a b.
Proof.
  revert b. induction a as [|x a IH]; intros [|y b]; cbn.
  - split; [discriminate|inversion 1].
  - split; [constructor|reflexivity].
  - split; [discriminate|inversion 1].
  - destruct (N.eqb_spec x y) as [->|Hne].
    + rewrite IH. split; [now constructor|].
      inversion 1; subst; [lia|assumption].
    + rewrite N.ltb_lt. split; [now constructor|].
      inversion 1; subst; [assumption|congruence].
Qed.

Lemma lex_lt_irrefl (a : jsstring) : ~ lex_lt a a.
Proof. induction a; inversion 1; subst; [lia|auto]. Qed.

Lemma lex_lt_trans (a b c : jsstring) : lex_lt a b -> lex_lt b c -> lex_lt a c.
Proof.
  intros Hab. revert c.
  induction Hab; intros c Hbc; inversion Hbc; subst;
    first [ apply lex_lt_nil
          | apply lex_lt_head; lia
          | apply lex_lt_tail; auto ].
Qed.

(** [a >= b] on strings is [b <= a]: the order is total. *)
Lemma IsLessThan_false (a b : jsstring) :
  IsLessThan a b = false <-> lex_le b a.
Proof.
  unfold lex_le. revert b. induction a as [|x a IH]; intros [|y b]; cbn.
  - split; [now right|reflexivity].
  - split; [discriminate|]. intros [H|H]; [inversion H|discriminate].
  - split; [left; constructor|reflexivity].
  - destruct (N.eqb_spec x y) as [->|Hne].
    + rewrite IH. split.
      * intros [H| ->]; [left; now constructor|now right].
      * intros [H|H]; [|inversion H; now right].
        inversion H; subst; [lia|now left].
    + rewrite N.ltb_ge. split.
      * intros Hle. left. constructor. lia.
      * intros [H|H]; [|congruence]. inversion H; subst; [lia|congruence].
Qed.

Lemma isRestaurantOpen_Some sched now hours :
  sched !! getDay now = Some hours ->
  isRestaurantOpen sched now = true
  <-> lex_le (open hours) (currentTime now)
      /\ lex_lt (currentTime now) (close hours).
Proof.
  intros Hday. unfold isRestaurantOpen, string_ge, string_lt.
  rewrite Hday, andb_true_iff, negb_true_iff, IsLessThan_false, IsLessThan_spec.
  reflexivity.
Qed.

Lemma isRestaurantOpen_None sched now :
  sched !! getDay now = None -> isRestaurantOpen sched now = false.
Proof. unfold isRestaurantOpen. now intros ->. Qed.

(** ** The time of day as text *)

Lemma padStart_two_digits (n : N) :
  n < 100 -> padStart (ToString n) 2 (lit "0") = [48 + n / 10; 48 + n mod 10].
Proof.
  intros Hn. rewrite <- (N2Nat.id n).
  assert (N.to_nat n < 100)%nat as Hlt by lia.
  revert Hlt. generalize (N.to_nat n). clear n Hn. intros n Hlt.
  do 100 (destruct n as [|n]; [reflexivity|]). lia.
Qed.

(** On a valid date [currentTime] is the zero-padded [HH:MM]. *)
Lemma currentTime_HHMM (now : Date) :
  valid_date now = true ->
  currentTime now
  = [48 + getHours now / 10; 48 + getHours now mod 10; 58;
     48 + getMinutes now / 10; 48 + getMinutes now mod 10].
Proof.
  unfold valid_date, currentTime. intros H. nbool.
  rewrite !padStart_two_digits by lia. reflexivity.
Qed.

(** On valid dates the order of the texts is the order of the times. *)
Lemma currentTime_chronological (d1 d2 : Date) :
  valid_date d1 = true -> valid_date d2 = true ->
  lex_lt (currentTime d1) (currentTime d2)
  <-> getHours d1 * 60 + getMinutes d1 < getHours d2 * 60 + getMinutes d2.
Proof.
  intros H1 H2. rewrite <- IsLessThan_spec, !currentTime_HHMM by assumption.
  unfold valid_date in *. nbool. cbn [IsLessThan].
  change (58 =? 58) with true. cbn match.
  repeat match goal with
  | |- context [?a =? ?b] => destruct (N.eqb_spec a b)
  end; rewrite ?N.ltb_lt;
  split; intros ?; first [discriminate | lia | exfalso; lia].
Qed.

(** ** Properties of the schedule evaluator *)

(** C1.  For a schedule entry whose [open] is lexicographically below its
    [close], [isRestaurantOpen] answers open exactly at the instants of
    that weekday whose local time, written as the zero-padded text [HH:MM]
    of its hour and minute, has [open <= t < close], and closed at all
    others; at [t = open] it is open and at [t = close] it is closed.  The
    text the function compares is that zero-padded text. *)
Theorem isRestaurantOpen_window sched now hours :
  valid_date now = true ->
  sched !! getDay now = Some hours ->
  lex_lt (open hours) (close hours) ->
  let t := HHMM (getHours now) (getMinutes now) in
  let inside := lex_le (open hours) t /\ lex_lt t (close hours) in
  currentTime now = t
  /\ (isRestaurantOpen sched now = true <-> inside)
  /\ (isRestaurantOpen sched now = false <-> ~ inside)
  /\ (t = open hours -> isRestaurantOpen sched now = true)
  /\ (t = close hours -> isRestaurantOpen sched now = false).
Proof.
  intros Hnow Hday Hlt t inside.
  pose proof (isRestaurantOpen_Some sched now hours Hday) as Hiff.
  rewrite (currentTime_HHMM now Hnow) in Hiff.
  fold (HHMM (getHours now) (getMinutes now)) in Hiff.
  fold t in Hiff. fold inside in Hiff.
  split; [exact (currentTime_HHMM now Hnow)|].
  split; [exact Hiff|]. split; [|split].
  - rewrite <- Hiff. destruct (isRestaurantOpen sched now); split; congruence.
  - intros Ht. apply Hiff. split; [right; congruence|]. now rewrite Ht.
  - intros Ht. apply not_true_is_false. intros Hopen.
    apply Hiff in Hopen as [_ Hclose]. rewrite Ht in Hclose.
    now apply lex_lt_irrefl in Hclose.
Qed.

(** The scenario of the specification: with Monday open from 11:00 to
    23:30, Monday 11:00 and Monday 23:29 are open, Monday 23:30 and Monday
    10:59 are closed; and the single-digit hour of Monday 09:05 is
    compared as the padded text. *)
Lemma isRestaurantOpen_window_monday :
  let sched : gmap N Hours := {[ 1 := mkHours (lit "11:00") (lit "23:30") ]} in
  isRestaurantOpen sched (mkDate 1 11 0) = true
  /\ isRestaurantOpen sched (mkDate 1 23 29) = true
  /\ isRestaurantOpen sched (mkDate 1 23 30) = false
  /\ isRestaurantOpen sched (mkDate 1 10 59) = false
  /\ currentTime (mkDate 1 9 5) = lit "09:05"
  /\ isRestaurantOpen sched (mkDate 1 9 5) = false.
Proof.
  intros sched.
  assert (lex_lt (lit "11:00") (lit "23:30")) as Hlt
    by (apply lex_lt_head; vm_compute; reflexivity).
  split; [|split; [|split; [|split; [|split]]]].
  - destruct (isRestaurantOpen_window sched (mkDate 1 11 0)
                (mkHours (lit "11:00") (lit "23:30")) eq_refl eq_refl Hlt)
      as (_ & _ & _ & Hopen & _).
    apply Hopen. reflexivity.
  - destruct (isRestaurantOpen_window sched (mkDate 1 23 29)
                (mkHours (lit "11:00") (lit "23:30")) eq_refl eq_refl Hlt)
      as (_ & Hin & _ & _ & _).
    apply Hin. vm_compute. split.
    + left. apply lex_lt_head. reflexivity.
    + do 3 apply lex_lt_tail. apply lex_lt_head. reflexivity.
  - destruct (isRestaurantOpen_window sched (mkDate 1 23 30)
                (mkHours (lit "11:00") (lit "23:30")) eq_refl eq_refl Hlt)
      as (_ & _ & _ & _ & Hclose).
    apply Hclose. reflexivity.
  - destruct (isRestaurantOpen_window sched (mkDate 1 10 59)
                (mkHours (lit "11:00") (lit "23:30")) eq_refl eq_refl Hlt)
      as (_ & _ & Hout & _ & _).
    apply Hout. intros [Hle _]. apply IsLessThan_false in Hle.
    discriminate Hle.
  - destruct (isRestaurantOpen_window sched (mkDate 1 9 5)
                (mkHours (lit "11:00") (lit "23:30")) eq_refl eq_refl Hlt)
      as (Htext & _ & _ & _ & _).
    exact Htext.
  - destruct (isRestaurantOpen_window sched (mkDate 1 9 5)
                (mkHours (lit "11:00") (lit "23:30")) eq_refl eq_refl Hlt)
      as (_ & _ & Hout & _ & _).
    apply Hout. intros [Hle _]. apply IsLessThan_false in Hle.
    discriminate Hle.
Defined.

(** C2.  For a schedule entry whose [close] is lexicographically below its
    [open], as with a closing time after midnight, [isRestaurantOpen]
    answers closed at every instant of that weekday. *)
Theorem isRestaurantOpen_past_midnight sched now hours :
  sched !! getDay now = Some hours ->
  lex_lt (close hours) (open hours) ->
  isRestaurantOpen sched now = false.
Proof.
  intros Hday Hlt.
  destruct (isRestaurantOpen sched now) eqn:Hopen; [|reflexivity].
  apply (isRestaurantOpen_Some sched now hours Hday) in Hopen as [Hle Hclose].
  exfalso. apply (lex_lt_irrefl (close hours)).
  apply lex_lt_trans with (open hours); [assumption|].
  destruct Hle as [Hle| ->]; [|assumption].
  now apply lex_lt_trans with (currentTime now).
Qed.

(** Friday of the shipped schedule, 11:00 to 00:30: closed at 23:00 and at
    a quarter past midnight. *)
Lemma isRestaurantOpen_past_midnight_friday :
  isRestaurantOpen Config.OPENING_HOURS (mkDate 5 23 0) = false
  /\ isRestaurantOpen Config.OPENING_HOURS (mkDate 5 0 15) = false.
Proof.
  assert (lex_lt (lit "00:30") (lit "11:00")) as Hlt
    by (apply lex_lt_head; vm_compute; reflexivity).
  split.
  - apply (isRestaurantOpen_past_midnight Config.OPENING_HOURS (mkDate 5 23 0)
             (mkHours (lit "11:00") (lit "00:30")) eq_refl Hlt).
  - apply (isRestaurantOpen_past_midnight Config.OPENING_HOURS (mkDate 5 0 15)
             (mkHours (lit "11:00") (lit "00:30")) eq_refl Hlt).
Defined.

(** C4.  [getTodayHours] is the text [open - close] made of today's entry
    as it stands in the schedule, and the word Fechado when today has no
    entry. *)
Theorem getTodayHours_label sched now :
  (forall hours, sched !! getDay now = Some hours ->
     getTodayHours sched now = open hours ++ lit " - " ++ close hours)
  /\ (sched !! getDay now = None -> getTodayHours sched now = lit "Fechado").
Proof.
  unfold getTodayHours. split.
  - intros hours ->. reflexivity.
  - intros ->. reflexivity.
Qed.

Lemma getTodayHours_label_config :
  getTodayHours Config.OPENING_HOURS (mkDate 5 20 0) = lit "11:00 - 00:30"
  /\ getTodayHours (delete 0 Config.OPENING_HOURS) (mkDate 0 20 0)
     = lit "Fechado".
Proof.
  split.
  - apply (proj1 (getTodayHours_label Config.OPENING_HOURS (mkDate 5 20 0))
             (mkHours (lit "11:00") (lit "00:30"))).
    reflexivity.
  - apply (proj2 (getTodayHours_label (delete 0 Config.OPENING_HOURS)
                    (mkDate 0 20 0))).
    reflexivity.
Defined.

(** C5.  On a weekday [d] that has no entry in the schedule,
    [isRestaurantOpen] answers closed at every instant that falls on [d];
    a missing day is no error. *)
Theorem isRestaurantOpen_absent_day sched d :
  sched !! d = None ->
  forall now, getDay now = d -> isRestaurantOpen sched now = false.
Proof. intros Habsent now <-. now apply isRestaurantOpen_None. Qed.

Lemma isRestaurantOpen_absent_day_sunday :
  isRestaurantOpen (delete 0 Config.OPENING_HOURS) (mkDate 0 12 0) = false.
Proof.
  apply (isRestaurantOpen_absent_day (delete 0 Config.OPENING_HOURS) 0);
    reflexivity.
Defined.

(** No text [open - close] is the word Fechado: it has a space. *)
Lemma label_not_Fechado (o c : jsstring) : o ++ lit " - " ++ c <> lit "Fechado".
Proof.
  intros Heq.
  assert (In 32 (o ++ lit " - " ++ c)) as Hin
    by (apply in_or_app; right; left; reflexivity).
  rewrite Heq in Hin. cbn in Hin.
  repeat (destruct Hin as [Hin|Hin]; [discriminate Hin|]). exact Hin.
Qed.

(** C10.  At two instants of the same weekday, [getTodayHours] is Fechado
    if and only if the weekday has no entry, and whenever it is Fechado
    [isRestaurantOpen] is false. *)
Theorem getTodayHours_Fechado_iff sched now now' :
  getDay now = getDay now' ->
  (getTodayHours sched now = lit "Fechado" <-> sched !! getDay now = None)
  /\ (getTodayHours sched now = lit "Fechado" ->
      isRestaurantOpen sched now' = false).
Proof.
  intros Hsame.
  assert (getTodayHours sched now = lit "Fechado"
          <-> sched !! getDay now = None) as Hiff.
  { unfold getTodayHours. destruct (sched !! getDay now) as [hours|].
    - split; [|discriminate]. intros H. now apply label_not_Fechado in H.
    - split; reflexivity. }
  split; [exact Hiff|].
  intros H. apply Hiff in H. rewrite Hsame in H.
  now apply isRestaurantOpen_None.
Qed.

Lemma getTodayHours_Fechado_iff_sunday :
  getTodayHours (delete 0 Config.OPENING_HOURS) (mkDate 0 12 0) = lit "Fechado"
  /\ isRestaurantOpen (delete 0 Config.OPENING_HOURS) (mkDate 0 12 1) = false.
Proof.
  pose proof (getTodayHours_Fechado_iff (delete 0 Config.OPENING_HOURS)
                (mkDate 0 12 0) (mkDate 0 12 1) eq_refl) as [Hiff Hclosed].
  assert (getTodayHours (delete 0 Config.OPENING_HOURS) (mkDate 0 12 0)
          = lit "Fechado") as Hlabel by (apply Hiff; reflexivity).
  split; [exact Hlabel|exact (Hclosed Hlabel)].
Defined.

(** ** Properties of the link builder and of the address formatter *)

Lemma getFullAddress_units_wf addr :
  code_units (street addr) = true -> code_units (neighborhood addr) = true ->
  code_units (city addr) = true -> code_units (state addr) = true ->
  isWellFormed (street addr) = true ->
  isWellFormed (neighborhood addr) = true ->
  isWellFormed (city addr) = true -> isWellFormed (state addr) = true ->
  code_units (getFullAddress addr) = true
  /\ isWellFormed (getFullAddress addr) = true.
Proof.
  intros U1 U2 U3 U4 W1 W2 W3 W4. unfold getFullAddress. split.
  - rewrite !code_units_app, U1, U2, U3, U4. reflexivity.
  - repeat (apply isWellFormed_app; [assumption || reflexivity|]). assumption.
Qed.

(** C3.  For the item Pizza with the price 39,90, [createWhatsAppLink] is
    the link whose text is the percent-encoding of the message
    [Quero pedir: Pizza (R$ 39,90)]; when no price is given the text of
    the link is the encoding of [Quero pedir: item] alone, with no
    parenthetical. *)
Theorem createWhatsAppLink_pizza target :
  createWhatsAppLink target (lit "Pizza") (Some (lit "39,90"))
  = Some (lit "https://wa.me/" ++ target
          ++ lit "?text=Quero%20pedir%3A%20Pizza%20(R%24%2039%2C90)")
  /\ encodeURIComponent (lit "Quero pedir: Pizza (R$ 39,90)")
     = Some (lit "Quero%20pedir%3A%20Pizza%20(R%24%2039%2C90)")
  /\ createWhatsAppLink target (lit "Pizza") None
     = Some (lit "https://wa.me/" ++ target
             ++ lit "?text=Quero%20pedir%3A%20Pizza")
  /\ (forall item,
        createWhatsAppLink target item None
        = (fun encoded => lit "https://wa.me/" ++ target ++ lit "?text="
                          ++ encoded)
            <$> encodeURIComponent (lit "Quero pedir: " ++ item))
  /\ (forall item,
        code_units item = true -> isWellFormed item = true ->
        exists encoded,
          createWhatsAppLink target item None
          = Some (lit "https://wa.me/" ++ target ++ lit "?text=" ++ encoded)
          /\ decodeURIComponent encoded = Some (lit "Quero pedir: " ++ item)).
Proof.
  split; [reflexivity|]. split; [reflexivity|]. split; [reflexivity|].
  split; [reflexivity|].
  intros item Hunits Hwf.
  destruct (encodeURIComponent_roundtrip (lit "Quero pedir: " ++ item))
    as (encoded & Henc & Hdec).
  - rewrite code_units_app, Hunits. reflexivity.
  - now apply isWellFormed_app.
  - exists encoded. split; [|exact Hdec].
    unfold createWhatsAppLink. cbn [truthy]. now rewrite Henc.
Qed.

(** The first product card without its price: Combo Duplo Bacon. *)
Lemma createWhatsAppLink_pizza_combo :
  exists encoded,
    createWhatsAppLink Config.WHATSAPP_NUMBER (lit "Combo Duplo Bacon") None
    = Some (lit "https://wa.me/" ++ Config.WHATSAPP_NUMBER ++ lit "?text="
            ++ encoded)
    /\ decodeURIComponent encoded = Some (lit "Quero pedir: Combo Duplo Bacon").
Proof.
  destruct (createWhatsAppLink_pizza Config.WHATSAPP_NUMBER)
    as (_ & _ & _ & _ & Hany).
  apply (Hany (lit "Combo Duplo Bacon")); reflexivity.
Defined.

(** C9.  With the empty string as price, [createWhatsAppLink] builds the
    message without price: the link is the one of the call that leaves
    the price out. *)
Theorem createWhatsAppLink_empty_price target item :
  createWhatsAppLink target item (Some []) = createWhatsAppLink target item None
  /\ createWhatsAppLink target item (Some [])
     = (fun encoded => lit "https://wa.me/" ++ target ++ lit "?text="
                       ++ encoded)
         <$> encodeURIComponent (lit "Quero pedir: " ++ item).
Proof. split; reflexivity. Qed.

Lemma well_formed_address_line addr :
  well_formed_address addr = true -> isWellFormed (getFullAddress addr) = true.
Proof.
  unfold well_formed_address, getFullAddress. intros Hwf.
  apply andb_true_iff in Hwf as [Hwf Hstate].
  apply andb_true_iff in Hwf as [Hwf Hcity].
  apply andb_true_iff in Hwf as [Hstreet Hnbhd].
  repeat (apply isWellFormed_app; [assumption || reflexivity|]). assumption.
Qed.

(** C6.  [getGoogleMapsUrl] is the search prefix followed by the
    percent-encoding of [getFullAddress]; whenever it returns a link,
    decoding what follows [/search/] gives [getFullAddress] back exactly;
    and on every address whose fields are well-formed strings it does
    return that link. *)
Theorem getGoogleMapsUrl_roundtrip addr :
  code_units (getFullAddress addr) = true ->
  getGoogleMapsUrl addr
  = (fun encoded => lit "https://www.google.com/maps/search/" ++ encoded)
      <$> encodeURIComponent (getFullAddress addr)
  /\ (forall url,
        getGoogleMapsUrl addr = Some url ->
        take (length (lit "https://www.google.com/maps/search/")) url
        = lit "https://www.google.com/maps/search/"
        /\ decodeURIComponent
             (drop (length (lit "https://www.google.com/maps/search/")) url)
           = Some (getFullAddress addr))
  /\ (well_formed_address addr = true ->
      exists url encoded,
        getGoogleMapsUrl addr = Some url
        /\ encodeURIComponent (getFullAddress addr) = Some encoded
        /\ url = lit "https://www.google.com/maps/search/" ++ encoded
        /\ decodeURIComponent
             (drop (length (lit "https://www.google.com/maps/search/")) url)
           = Some (getFullAddress addr)).
Proof.
  intros Hunits. split; [reflexivity|]. split.
  - intros url Hurl. unfold getGoogleMapsUrl in Hurl.
    apply fmap_Some in Hurl as (encoded & Henc & ->).
    split; [now rewrite take_app_length|].
    rewrite drop_app_length.
    now apply decode_encodeURIComponent with (s := getFullAddress addr).
  - intros Hwf. apply well_formed_address_line in Hwf.
    destruct (encodeURIComponent_roundtrip _ Hunits Hwf)
      as (encoded & Henc & Hdec).
    exists (lit "https://www.google.com/maps/search/" ++ encoded), encoded.
    unfold getGoogleMapsUrl. rewrite Henc.
    split; [reflexivity|]. split; [reflexivity|]. split; [reflexivity|].
    now rewrite drop_app_length.
Qed.

(** The address the page ships with, and the link it gives. *)
Lemma getGoogleMapsUrl_roundtrip_config :
  getGoogleMapsUrl Config.RESTAURANT_ADDRESS
  = Some (lit "https://www.google.com/maps/search/Rua%20das%20Flores%2C%20123%2C%20Centro%2C%20S%C3%A3o%20Paulo%20-%20SP")
  /\ exists url encoded,
       getGoogleMapsUrl Config.RESTAURANT_ADDRESS = Some url
       /\ encodeURIComponent (getFullAddress Config.RESTAURANT_ADDRESS)
          = Some encoded
       /\ url = lit "https://www.google.com/maps/search/" ++ encoded
       /\ decodeURIComponent
            (drop (length (lit "https://www.google.com/maps/search/")) url)
          = Some (getFullAddress Config.RESTAURANT_ADDRESS).
Proof.
  destruct (getGoogleMapsUrl_roundtrip Config.RESTAURANT_ADDRESS eq_refl)
    as (Heq & _ & Hreturns).
  split; [rewrite Heq; reflexivity|].
  apply Hreturns. reflexivity.
Defined.

(** Outside those addresses: when the street is an unpaired surrogate,
    [encodeURIComponent] throws and no link is returned. *)
Lemma getGoogleMapsUrl_unpaired_surrogate :
  code_units (getFullAddress unpaired_street_address) = true
  /\ getGoogleMapsUrl unpaired_street_address = None
  /\ ~ (forall addr, exists url, getGoogleMapsUrl addr = Some url).
Proof.
  split; [reflexivity|]. split; [reflexivity|].
  intros Hall. destruct (Hall unpaired_street_address) as [url Hurl].
  discriminate Hurl.
Qed.

(** [getGoogleMapsUrl] returns exactly on the well-formed addresses. *)
Lemma getGoogleMapsUrl_is_Some addr :
  is_Some (getGoogleMapsUrl addr) <-> isWellFormed (getFullAddress addr) = true.
Proof.
  unfold getGoogleMapsUrl. rewrite fmap_is_Some.
  apply encodeURIComponent_is_Some.
Qed.

(** C7.  [openWhatsAppDelivery] opens the link whose text is the
    percent-encoding of the greeting followed by [getFullAddress], the
    single line [street, neighborhood, city - state] in which the zipcode
    has no part; the link has the shape of the one of
    [createWhatsAppLink]. *)
Theorem openWhatsAppDelivery_url target addr :
  let whatsapp encoded :=
    lit "https://wa.me/" ++ target ++ lit "?text=" ++ encoded in
  getFullAddress addr
  = street addr ++ lit ", " ++ neighborhood addr ++ lit ", " ++ city addr
    ++ lit " - " ++ state addr
  /\ (forall z,
        getFullAddress
          (mkAddress (street addr) (neighborhood addr) (city addr)
             (state addr) z)
        = getFullAddress addr)
  /\ encodeURIComponent deliveryGreeting
     = Some (lit "Ol%C3%A1!%20Voc%C3%AAs%20fazem%20entrega%20no%20meu%20endere%C3%A7o%3F%20")
  /\ openWhatsAppDelivery target addr
     = (fun encoded => window_open (whatsapp encoded) (lit "_blank"))
         <$> encodeURIComponent (deliveryGreeting ++ getFullAddress addr)
  /\ (forall product price, exists message,
        createWhatsAppLink target product price
        = whatsapp <$> encodeURIComponent message)
  /\ (code_units (getFullAddress addr) = true ->
      isWellFormed (getFullAddress addr) = true ->
      exists encoded,
        openWhatsAppDelivery target addr
        = Some (window_open (whatsapp encoded) (lit "_blank"))
        /\ decodeURIComponent encoded
           = Some (deliveryGreeting ++ getFullAddress addr)).
Proof.
  intros whatsapp.
  split; [reflexivity|]. split; [reflexivity|]. split; [reflexivity|].
  split; [reflexivity|]. split.
  - intros product price. unfold createWhatsAppLink. eexists. reflexivity.
  - intros Hunits Hwf.
    destruct (encodeURIComponent_roundtrip (deliveryGreeting ++ getFullAddress addr))
      as (encoded & Henc & Hdec).
    + rewrite code_units_app, Hunits. reflexivity.
    + now apply isWellFormed_app.
    + exists encoded. split; [|exact Hdec].
      unfold openWhatsAppDelivery. now rewrite Henc.
Qed.

(** The link the page opens with the address it ships with. *)
Lemma openWhatsAppDelivery_url_config :
  exists encoded,
    openWhatsAppDelivery Config.WHATSAPP_NUMBER Config.RESTAURANT_ADDRESS
    = Some (window_open
              (lit "https://wa.me/" ++ Config.WHATSAPP_NUMBER ++ lit "?text="
               ++ encoded)
              (lit "_blank"))
    /\ decodeURIComponent encoded
       = Some (deliveryGreeting ++ getFullAddress Config.RESTAURANT_ADDRESS).
Proof.
  destruct (openWhatsAppDelivery_url Config.WHATSAPP_NUMBER
              Config.RESTAURANT_ADDRESS) as (_ & _ & _ & _ & _ & Hopen).
  exact (Hopen eq_refl eq_refl).
Defined.

Example openWhatsAppDelivery_config :
  openWhatsAppDelivery Config.WHATSAPP_NUMBER Config.RESTAURANT_ADDRESS
  = Some (window_open
            (lit "https://wa.me/5511999999999?text=Ol%C3%A1!%20Voc%C3%AAs%20fazem%20entrega%20no%20meu%20endere%C3%A7o%3F%20Rua%20das%20Flores%2C%20123%2C%20Centro%2C%20S%C3%A3o%20Paulo%20-%20SP")
            (lit "_blank")).
Proof. vm_compute. reflexivity. Qed.

(** C8.  [getFormattedAddressLines] is a list of exactly three lines: the
    street, then [neighborhood, city - state], then the zipcode. *)
Theorem getFormattedAddressLines_three addr :
  getFormattedAddressLines addr
  = [ street addr;
      neighborhood addr ++ lit ", " ++ city addr ++ lit " - " ++ state addr;
      zipcode addr ]
  /\ length (getFormattedAddressLines addr) = 3%nat
  /\ getFormattedAddressLines addr !! 0%nat = Some (street addr)
  /\ getFormattedAddressLines addr !! 2%nat = Some (zipcode addr).
Proof. split; [reflexivity|]. split; [reflexivity|]. split; reflexivity. Qed.

(** ** Further lemmas on strings and encoding *)

Lemma lex_le_trans (a b c : jsstring) : lex_le a b -> lex_le b c -> lex_le a c.
Proof.
  intros [Hab| ->] [Hbc| <-]; unfold lex_le; eauto using lex_lt_trans.
Qed.

Lemma lex_le_lt_trans (a b c : jsstring) :
  lex_le a b -> lex_lt b c -> lex_lt a c.
Proof. intros [Hab| ->] Hbc; eauto using lex_lt_trans. Qed.

(** A well-formed prefix takes no part in what follows it. *)
Lemma isWellFormed_app_l (a b : jsstring) :
  isWellFormed a = true -> isWellFormed (a ++ b) = isWellFormed b.
Proof.
  remember (length a) as n eqn:Hn. revert a Hn.
  induction n as [n IH] using lt_wf_ind. intros a Hn Ha.
  destruct a as [|C rest]; [reflexivity|].
  cbn in Hn, Ha |- *. destruct (isLeadingSurrogate C).
  - destruct rest as [|d rest']; [discriminate|]. cbn in Hn |- *.
    apply andb_true_iff in Ha as [-> Ha]. cbn.
    apply (IH (length rest')); [lia|reflexivity|assumption].
  - apply andb_true_iff in Ha as [-> Ha]. cbn.
    apply (IH (length rest)); [lia|reflexivity|assumption].
Qed.

(** A code unit that is no surrogate separates what is before it from
    what is after it. *)
Lemma isWellFormed_separator (a b : jsstring) (c : N) :
  isLeadingSurrogate c = false -> isTrailingSurrogate c = false ->
  isWellFormed (a ++ c :: b) = isWellFormed a && isWellFormed (c :: b).
Proof.
  intros Hlead Htrail.
  remember (length a) as n eqn:Hn. revert a Hn.
  induction n as [n IH] using lt_wf_ind. intros a Hn.
  destruct a as [|x rest]; [reflexivity|].
  cbn [app]. cbn in Hn.
  change (isWellFormed (x :: rest ++ c :: b))
    with (if isLeadingSurrogate x then
            match rest ++ c :: b with
            | d :: rest' => isTrailingSurrogate d && isWellFormed rest'
            | [] => false
            end
          else negb (isTrailingSurrogate x) && isWellFormed (rest ++ c :: b)).
  cbn [isWellFormed]. destruct (isLeadingSurrogate x).
  - destruct rest as [|d rest']; cbn [app].
    + now rewrite Htrail.
    + cbn in Hn. rewrite (IH (length rest')) by (lia || reflexivity).
      apply andb_assoc.
  - rewrite (IH (length rest)) by (lia || reflexivity). apply andb_assoc.
Qed.

Lemma encodeURIComponent_None (s : jsstring) :
  encodeURIComponent s = None <-> isWellFormed s = false.
Proof.
  pose proof (encodeURIComponent_is_Some s) as Hiff.
  destruct (encodeURIComponent s) as [e|], (isWellFormed s).
  - split; discriminate.
  - destruct Hiff as [Hiff _]. now discriminate Hiff.
  - destruct Hiff as [_ Hiff]. destruct Hiff as [? ?]; [reflexivity|discriminate].
  - split; reflexivity.
Qed.


Lemma hexDigit_unescaped d : d < 16 -> uriUnescaped (hexDigit d) = true.
Proof.
  intros Hd. unfold hexDigit.
  destruct (N.ltb_spec d 10); unfold uriUnescaped; nbool.
Qed.

Lemma utf8_encode_octets cp :
  cp < 2097152 -> Forall (fun B => B < 256) (utf8_encode cp).
Proof.
  intros Hcp. unfold utf8_encode.
  destruct (N.ltb_spec cp 128); [|destruct (N.ltb_spec cp 2048);
    [|destruct (N.ltb_spec cp 65536)]]; repeat constructor; lia.
Qed.

Lemma escapeOctets_escaped Octets :
  Forall (fun B => B < 256) Octets -> Forall escaped (escapeOctets Octets).
Proof.
  induction 1 as [|B Octets HB _ IH]; [constructor|].
  cbn [escapeOctets map concat escapeOctet app]. fold (escapeOctets Octets).
  constructor; [now right|].
  constructor; [left; apply hexDigit_unescaped; lia|].
  constructor; [left; apply hexDigit_unescaped; lia|assumption].
Qed.

(** The encoding of a string holds unescaped characters and percent signs
    only. *)
Lemma encodeURIComponent_escaped (s : jsstring) :
  code_units s = true ->
  forall e, encodeURIComponent s = Some e -> Forall escaped e.
Proof.
  remember (length s) as n eqn:Hn. revert s Hn.
  induction n as [n IH] using lt_wf_ind. intros s Hn Hunits e Henc.
  destruct s as [|C rest]; cbn in Henc.
  { inversion Henc. constructor. }
  cbn in Hunits, Hn. apply andb_true_iff in Hunits as [HC Hunits].
  unfold is_code_unit in HC. apply N.ltb_lt in HC.
  destruct (uriUnescaped C) eqn:Hun.
  - destruct (encodeURIComponent rest) as [e'|] eqn:He'; [|discriminate].
    cbn in Henc. inversion Henc; subst e.
    constructor; [now left|].
    apply (IH (length rest) ltac:(lia) rest eq_refl Hunits e' He').
  - destruct (isLeadingSurrogate C) eqn:Hlead.
    + destruct rest as [|d rest']; [discriminate|].
      destruct (isTrailingSurrogate d) eqn:Htrail; [|discriminate].
      cbn in Hunits, Hn. apply andb_true_iff in Hunits as [Hd Hunits].
      destruct (encodeURIComponent rest') as [e'|] eqn:He'; [|discriminate].
      cbn in Henc. inversion Henc; subst e.
      apply Forall_app. split.
      * apply escapeOctets_escaped, utf8_encode_octets.
        destruct (surrogate_pair_scalar C d Hlead Htrail) as [[Hmax _] _]. lia.
      * apply (IH (length rest') ltac:(lia) rest' eq_refl Hunits e' He').
    + destruct (isTrailingSurrogate C); [discriminate|].
      destruct (encodeURIComponent rest) as [e'|] eqn:He'; [|discriminate].
      cbn in Henc. inversion Henc; subst e.
      apply Forall_app. split.
      * apply escapeOctets_escaped, utf8_encode_octets. lia.
      * apply (IH (length rest) ltac:(lia) rest eq_refl Hunits e' He').
Qed.

Lemma escaped_not_delimiter c : escaped c -> ~ In c uriDelimiters.
Proof.
  unfold escaped, uriDelimiters, uriUnescaped. intros Hc Hin. cbn in Hin.
  nbool.
Qed.

(** Encoding is injective: the decoder recovers the string. *)
Lemma encodeURIComponent_inj (s1 s2 e : jsstring) :
  code_units s1 = true -> code_units s2 = true ->
  encodeURIComponent s1 = Some e -> encodeURIComponent s2 = Some e ->
  s1 = s2.
Proof.
  intros U1 U2 E1 E2.
  apply decode_encodeURIComponent in E1; [|assumption].
  apply decode_encodeURIComponent in E2; [|assumption].
  congruence.
Qed.

(** ** Further lemmas on the time of day *)

Lemma currentTime_minutes_eq (d1 d2 : Date) :
  valid_date d1 = true -> valid_date d2 = true ->
  minutes d1 = minutes d2 -> currentTime d1 = currentTime d2.
Proof.
  unfold valid_date, minutes, currentTime. intros H1 H2 Heq. nbool.
  assert (getHours d1 = getHours d2) as -> by lia.
  assert (getMinutes d1 = getMinutes d2) as -> by lia.
  reflexivity.
Qed.

Lemma currentTime_le (d1 d2 : Date) :
  valid_date d1 = true -> valid_date d2 = true ->
  lex_le (currentTime d1) (currentTime d2) <-> minutes d1 <= minutes d2.
Proof.
  intros H1 H2. unfold lex_le. split.
  - intros [Hlt|Heq].
    + apply currentTime_chronological in Hlt; [|assumption..].
      unfold minutes. lia.
    + destruct (N.le_gt_cases (minutes d1) (minutes d2)) as [|Hgt]; [assumption|].
      exfalso. apply (lex_lt_irrefl (currentTime d1)). rewrite Heq at 1.
      now apply currentTime_chronological.
  - intros Hle. destruct (N.eq_dec (minutes d1) (minutes d2)) as [Heq|Hne].
    + right. now apply currentTime_minutes_eq.
    + left. apply currentTime_chronological; [assumption..|].
      unfold minutes in *. lia.
Qed.

Lemma HHMM_currentTime h m :
  h < 24 -> m < 60 -> HHMM h m = currentTime (mkDate 0 h m).
Proof.
  intros Hh Hm. rewrite currentTime_HHMM; [reflexivity|].
  unfold valid_date. cbn [getDay getHours getMinutes]. nbool.
Qed.

(** With an entry written as zero-padded times, the comparison of texts is
    the comparison of minutes. *)
Lemma isRestaurantOpen_HHMM sched now ho mo hc mc :
  valid_date now = true -> ho < 24 -> mo < 60 -> hc < 24 -> mc < 60 ->
  sched !! getDay now = Some (mkHours (HHMM ho mo) (HHMM hc mc)) ->
  isRestaurantOpen sched now = true
  <-> ho * 60 + mo <= minutes now < hc * 60 + mc.
Proof.
  intros Hnow Hho Hmo Hhc Hmc Hday.
  rewrite (isRestaurantOpen_Some sched now _ Hday).
  cbn [open close]. rewrite !HHMM_currentTime by assumption.
  assert (valid_date (mkDate 0 ho mo) = true) as Vo
    by (unfold valid_date; cbn; nbool).
  assert (valid_date (mkDate 0 hc mc) = true) as Vc
    by (unfold valid_date; cbn; nbool).
  rewrite currentTime_le, currentTime_chronological by assumption.
  unfold minutes. cbn [getHours getMinutes]. reflexivity.
Qed.

(** ** Further properties of the schedule evaluator *)

(** X1.  On a valid date the [currentTime] of [isRestaurantOpen] is a text
    of five code units: the two digits of the hour, a colon, the two digits
    of the minute, each number padded with a zero. *)
Theorem currentTime_zero_padded (now : Date) :
  valid_date now = true ->
  currentTime now = HHMM (getHours now) (getMinutes now)
  /\ length (currentTime now) = 5%nat
  /\ currentTime now !! 2%nat = Some 58.
Proof.
  intros Hnow. rewrite (currentTime_HHMM now Hnow).
  split; [reflexivity|]. split; reflexivity.
Qed.

Lemma currentTime_zero_padded_nine_five :
  currentTime (mkDate 3 9 5) = lit "09:05"
  /\ length (currentTime (mkDate 3 9 5)) = 5%nat
  /\ currentTime (mkDate 3 9 5) !! 2%nat = Some 58.
Proof.
  apply (currentTime_zero_padded (mkDate 3 9 5)). reflexivity.
Defined.

(** X2.  On valid dates the order in which [isRestaurantOpen] compares
    times, the order of their texts by code units, is the order of the
    times themselves, and two texts are equal exactly when the times
    are. *)
Theorem currentTime_order (d1 d2 : Date) :
  valid_date d1 = true -> valid_date d2 = true ->
  (string_lt (currentTime d1) (currentTime d2) = true
   <-> minutes d1 < minutes d2)
  /\ (string_ge (currentTime d1) (currentTime d2) = true
      <-> minutes d2 <= minutes d1)
  /\ (currentTime d1 = currentTime d2 <-> minutes d1 = minutes d2).
Proof.
  intros H1 H2. unfold string_lt, string_ge.
  rewrite negb_true_iff, IsLessThan_false, IsLessThan_spec.
  rewrite currentTime_chronological, currentTime_le by assumption.
  split; [reflexivity|]. split; [reflexivity|]. split.
  - intros Heq.
    assert (lex_le (currentTime d1) (currentTime d2)) as Hle by now right.
    assert (lex_le (currentTime d2) (currentTime d1)) as Hge by now right.
    apply currentTime_le in Hle; [|assumption..].
    apply currentTime_le in Hge; [|assumption..]. lia.
  - now apply currentTime_minutes_eq.
Qed.

Lemma currentTime_order_morning :
  string_lt (currentTime (mkDate 0 9 59)) (currentTime (mkDate 0 10 0)) = true.
Proof.
  apply (currentTime_order (mkDate 0 9 59) (mkDate 0 10 0) eq_refl eq_refl).
  vm_compute. reflexivity.
Defined.

(** X3.  When the entry of the day is written as zero-padded times,
    [isRestaurantOpen] is true exactly when the minute of the day is at or
    after the opening minute and before the closing minute; an entry whose
    closing time is not after its opening time is closed all day. *)
Theorem isRestaurantOpen_minutes sched now ho mo hc mc :
  valid_date now = true -> ho < 24 -> mo < 60 -> hc < 24 -> mc < 60 ->
  sched !! getDay now = Some (mkHours (HHMM ho mo) (HHMM hc mc)) ->
  (isRestaurantOpen sched now = true
   <-> ho * 60 + mo <= minutes now < hc * 60 + mc)
  /\ (hc * 60 + mc <= ho * 60 + mo -> isRestaurantOpen sched now = false).
Proof.
  intros Hnow Hho Hmo Hhc Hmc Hday.
  pose proof (isRestaurantOpen_HHMM sched now ho mo hc mc
                Hnow Hho Hmo Hhc Hmc Hday) as Hiff.
  split; [exact Hiff|].
  intros Hle. apply not_true_is_false. intros Hopen. apply Hiff in Hopen. lia.
Qed.

Lemma isRestaurantOpen_minutes_lunch :
  let sched : gmap N Hours := {[ 2 := mkHours (HHMM 11 30) (HHMM 14 0) ]} in
  isRestaurantOpen sched (mkDate 2 13 59) = true.
Proof.
  intros sched.
  apply (proj1 (isRestaurantOpen_minutes sched (mkDate 2 13 59) 11 30 14 0
                  eq_refl eq_refl eq_refl eq_refl eq_refl eq_refl)).
  unfold minutes. cbn [getHours getMinutes]. lia.
Defined.

(** X4.  With the schedule the page ships with, [isRestaurantOpen] is true
    on Sunday from 11:00 to 22:59 and from Monday to Thursday from 11:00 to
    23:29, and at no other time: never on Friday or Saturday, whose closing
    time of 00:30 is before the opening time. *)
Theorem isRestaurantOpen_shipped (now : Date) :
  valid_date now = true ->
  isRestaurantOpen Config.OPENING_HOURS now = true
  <-> (getDay now = 0 /\ 660 <= minutes now < 1380)
      \/ (1 <= getDay now <= 4 /\ 660 <= minutes now < 1410).
Proof.
  intros Hnow.
  assert (getDay now < 7) as Hday by (unfold valid_date in Hnow; nbool).
  assert (forall d ho mo hc mc,
            getDay now = d ->
            Config.OPENING_HOURS !! d
            = Some (mkHours (HHMM ho mo) (HHMM hc mc)) ->
            ho < 24 -> mo < 60 -> hc < 24 -> mc < 60 ->
            isRestaurantOpen Config.OPENING_HOURS now = true
            <-> ho * 60 + mo <= minutes now < hc * 60 + mc) as Hentry.
  { intros d ho mo hc mc <- Hd Hho Hmo Hhc Hmc.
    now apply isRestaurantOpen_HHMM. }
  assert (getDay now = 0 \/ getDay now = 1 \/ getDay now = 2 \/ getDay now = 3
          \/ getDay now = 4 \/ getDay now = 5 \/ getDay now = 6)
    as [H|[H|[H|[H|[H|[H|H]]]]]] by lia.
  - rewrite (Hentry 0 11 0 23 0 H eq_refl) by lia. lia.
  - rewrite (Hentry 1 11 0 23 30 H eq_refl) by lia. lia.
  - rewrite (Hentry 2 11 0 23 30 H eq_refl) by lia. lia.
  - rewrite (Hentry 3 11 0 23 30 H eq_refl) by lia. lia.
  - rewrite (Hentry 4 11 0 23 30 H eq_refl) by lia. lia.
  - rewrite (Hentry 5 11 0 0 30 H eq_refl) by lia. lia.
  - rewrite (Hentry 6 11 0 0 30 H eq_refl) by lia. lia.
Qed.

Lemma isRestaurantOpen_shipped_saturday_night :
  isRestaurantOpen Config.OPENING_HOURS (mkDate 6 21 0) = false
  /\ isRestaurantOpen Config.OPENING_HOURS (mkDate 0 22 59) = true.
Proof.
  split.
  - apply not_true_is_false. intros Hopen.
    apply (isRestaurantOpen_shipped (mkDate 6 21 0) eq_refl) in Hopen.
    cbn [getDay] in Hopen. lia.
  - apply (isRestaurantOpen_shipped (mkDate 0 22 59) eq_refl).
    left. unfold minutes. cbn [getDay getHours getMinutes]. lia.
Defined.

(** X5.  The instants of a day at which [isRestaurantOpen] is true have no
    gap: between two open instants of the same weekday every instant is
    open, whatever the texts of the entry are. *)
Theorem isRestaurantOpen_interval sched (d1 d2 d3 : Date) :
  valid_date d1 = true -> valid_date d2 = true -> valid_date d3 = true ->
  getDay d1 = getDay d2 -> getDay d3 = getDay d2 ->
  minutes d1 <= minutes d2 <= minutes d3 ->
  isRestaurantOpen sched d1 = true -> isRestaurantOpen sched d3 = true ->
  isRestaurantOpen sched d2 = true.
Proof.
  intros V1 V2 V3 D1 D3 [H12 H23] O1 O3.
  destruct (sched !! getDay d2) as [hours|] eqn:Hday.
  - assert (sched !! getDay d1 = Some hours) as Hday1 by now rewrite D1.
    assert (sched !! getDay d3 = Some hours) as Hday3 by now rewrite D3.
    apply (isRestaurantOpen_Some _ _ _ Hday1) in O1 as [Hopen _].
    apply (isRestaurantOpen_Some _ _ _ Hday3) in O3 as [_ Hclose].
    apply (isRestaurantOpen_Some _ _ _ Hday). split.
    + apply lex_le_trans with (currentTime d1); [assumption|].
      now apply currentTime_le.
    + apply lex_le_lt_trans with (currentTime d3); [|assumption].
      now apply currentTime_le.
  - rewrite isRestaurantOpen_None in O1 by now rewrite D1. discriminate.
Qed.

Lemma isRestaurantOpen_interval_monday :
  isRestaurantOpen Config.OPENING_HOURS (mkDate 1 18 45) = true.
Proof.
  apply (isRestaurantOpen_interval Config.OPENING_HOURS
           (mkDate 1 11 0) (mkDate 1 18 45) (mkDate 1 23 29));
    try reflexivity.
  unfold minutes. cbn [getHours getMinutes]. lia.
Defined.

(** ** Further properties of the links *)

Lemma truthy_cons (c : N) (p : jsstring) : truthy (Some (c :: p)) = true.
Proof. reflexivity. Qed.

(** The message [createWhatsAppLink] encodes, with and without price. *)
Lemma createWhatsAppLink_with_price target product (c : N) (p : jsstring) :
  createWhatsAppLink target product (Some (c :: p))
  = (fun encoded => lit "https://wa.me/" ++ target ++ lit "?text=" ++ encoded)
      <$> encodeURIComponent
            (lit "Quero pedir: " ++ product ++ lit " (R$ " ++ (c :: p)
             ++ lit ")").
Proof. reflexivity. Qed.

Lemma createWhatsAppLink_no_price target product price :
  truthy price = false ->
  createWhatsAppLink target product price
  = (fun encoded => lit "https://wa.me/" ++ target ++ lit "?text=" ++ encoded)
      <$> encodeURIComponent (lit "Quero pedir: " ++ product).
Proof. unfold createWhatsAppLink. now intros ->. Qed.

(** A well-formed separator that does not begin with a surrogate splits a
    text into two parts that are well-formed or not on their own. *)
Lemma isWellFormed_sep (a sep b : jsstring) (c : N) (sep' : jsstring) :
  sep = c :: sep' ->
  isLeadingSurrogate c = false -> isTrailingSurrogate c = false ->
  isWellFormed sep = true ->
  isWellFormed (a ++ sep ++ b) = isWellFormed a && isWellFormed b.
Proof.
  intros -> Hlead Htrail Hsep.
  change ((c :: sep') ++ b) with (c :: sep' ++ b).
  rewrite isWellFormed_separator by assumption.
  change (c :: sep' ++ b) with ((c :: sep') ++ b).
  now rewrite isWellFormed_app_l.
Qed.

Lemma order_message_wf (product price : jsstring) :
  isWellFormed (lit "Quero pedir: " ++ product ++ lit " (R$ " ++ price ++ lit ")")
  = isWellFormed product && isWellFormed price.
Proof.
  rewrite isWellFormed_app_l by reflexivity.
  rewrite (isWellFormed_sep product (lit " (R$ ") _ 32 (lit "(R$ "))
    by reflexivity.
  f_equal. change (lit ")") with [41].
  rewrite (isWellFormed_separator price [] 41) by reflexivity.
  apply andb_true_r.
Qed.

Lemma getFullAddress_wf addr :
  isWellFormed (getFullAddress addr)
  = isWellFormed (street addr) && isWellFormed (neighborhood addr)
    && isWellFormed (city addr) && isWellFormed (state addr).
Proof.
  unfold getFullAddress.
  rewrite (isWellFormed_sep (street addr) (lit ", ") _ 44 (lit " "))
    by reflexivity.
  rewrite (isWellFormed_sep (neighborhood addr) (lit ", ") _ 44 (lit " "))
    by reflexivity.
  rewrite (isWellFormed_sep (city addr) (lit " - ") _ 32 (lit "- "))
    by reflexivity.
  now rewrite !andb_assoc.
Qed.

(** X6.  For every product and every price that is not empty, both
    well-formed, [createWhatsAppLink] returns the link whose text decodes
    to the message [Quero pedir: product (R$ price)]; and the link is the
    one of the same call without price on the product followed by the
    parenthetical. *)
Theorem createWhatsAppLink_priced target product price :
  price <> [] ->
  code_units product = true -> code_units price = true ->
  isWellFormed product = true -> isWellFormed price = true ->
  (exists encoded,
     createWhatsAppLink target product (Some price)
     = Some (lit "https://wa.me/" ++ target ++ lit "?text=" ++ encoded)
     /\ decodeURIComponent encoded
        = Some (lit "Quero pedir: " ++ product ++ lit " (R$ " ++ price
                ++ lit ")"))
  /\ createWhatsAppLink target product (Some price)
     = createWhatsAppLink target (product ++ lit " (R$ " ++ price ++ lit ")")
         None.
Proof.
  intros Hne Uprod Uprice Wprod Wprice.
  destruct price as [|c p]; [congruence|].
  rewrite createWhatsAppLink_with_price.
  rewrite createWhatsAppLink_no_price by reflexivity.
  split; [|reflexivity].
  destruct (encodeURIComponent_roundtrip
              (lit "Quero pedir: " ++ product ++ lit " (R$ " ++ (c :: p)
               ++ lit ")")) as (encoded & Henc & Hdec).
  - rewrite !code_units_app, Uprod, Uprice. reflexivity.
  - rewrite order_message_wf, Wprod, Wprice. reflexivity.
  - exists encoded. rewrite Henc. split; [reflexivity|exact Hdec].
Qed.

(** A card of the page: Pizza Pepperoni Grande at 39,90. *)
Lemma createWhatsAppLink_priced_card :
  exists encoded,
    createWhatsAppLink Config.WHATSAPP_NUMBER (lit "Pizza Pepperoni Grande")
      (Some (lit "39,90"))
    = Some (lit "https://wa.me/" ++ Config.WHATSAPP_NUMBER ++ lit "?text="
            ++ encoded)
    /\ decodeURIComponent encoded
       = Some (lit "Quero pedir: Pizza Pepperoni Grande (R$ 39,90)").
Proof.
  apply (createWhatsAppLink_priced Config.WHATSAPP_NUMBER
           (lit "Pizza Pepperoni Grande") (lit "39,90"));
    [discriminate|reflexivity..].
Defined.

(** X7.  [createWhatsAppLink] throws, the [URIError] of
    [encodeURIComponent], exactly when the product or a given price holds
    an unpaired surrogate; the target is never looked at. *)
Theorem createWhatsAppLink_throws target product price :
  createWhatsAppLink target product price = None
  <-> isWellFormed product = false
      \/ (exists p, price = Some p /\ isWellFormed p = false).
Proof.
  destruct price as [[|c p]|].
  - rewrite createWhatsAppLink_no_price by reflexivity.
    rewrite fmap_None, encodeURIComponent_None.
    rewrite isWellFormed_app_l by reflexivity. split; [now left|].
    intros [H|(p & Hp & Hwf)]; [assumption|].
    inversion Hp; subst p. discriminate Hwf.
  - rewrite createWhatsAppLink_with_price.
    rewrite fmap_None, encodeURIComponent_None.
    rewrite order_message_wf, andb_false_iff. split.
    + intros [H|H]; [now left|right; eauto].
    + intros [H|(p' & Hp & Hwf)]; [now left|].
      inversion Hp; subst p'. now right.
  - rewrite createWhatsAppLink_no_price by reflexivity.
    rewrite fmap_None, encodeURIComponent_None.
    rewrite isWellFormed_app_l by reflexivity. split; [now left|].
    intros [H|(p & Hp & _)]; [assumption|discriminate Hp].
Qed.

(** X8.  The text of a link of [createWhatsAppLink] is made of unescaped
    characters and percent signs only: it holds no space and none of
    [# & + / = ?], whatever the product and the price are. *)
Theorem createWhatsAppLink_escaped target product price url :
  code_units product = true ->
  (forall p, price = Some p -> code_units p = true) ->
  createWhatsAppLink target product price = Some url ->
  exists encoded,
    url = lit "https://wa.me/" ++ target ++ lit "?text=" ++ encoded
    /\ Forall escaped encoded
    /\ (forall c, In c uriDelimiters -> ~ In c encoded).
Proof.
  intros Uprod Uprice Hurl.
  assert (exists message encoded,
            code_units message = true
            /\ encodeURIComponent message = Some encoded
            /\ url = lit "https://wa.me/" ++ target ++ lit "?text=" ++ encoded)
    as (message & encoded & Umsg & Henc & ->).
  { destruct price as [[|c p]|].
    - rewrite createWhatsAppLink_no_price in Hurl by reflexivity.
      apply fmap_Some in Hurl as (encoded & Henc & ->).
      eexists _, encoded. split; [|split; [exact Henc|reflexivity]].
      rewrite code_units_app, Uprod. reflexivity.
    - rewrite createWhatsAppLink_with_price in Hurl.
      apply fmap_Some in Hurl as (encoded & Henc & ->).
      eexists _, encoded. split; [|split; [exact Henc|reflexivity]].
      rewrite !code_units_app, Uprod, (Uprice _ eq_refl). reflexivity.
    - rewrite createWhatsAppLink_no_price in Hurl by reflexivity.
      apply fmap_Some in Hurl as (encoded & Henc & ->).
      eexists _, encoded. split; [|split; [exact Henc|reflexivity]].
      rewrite code_units_app, Uprod. reflexivity. }
  exists encoded. split; [reflexivity|].
  pose proof (encodeURIComponent_escaped _ Umsg _ Henc) as Hesc.
  split; [exact Hesc|].
  intros c Hdelim Hin. rewrite Forall_forall in Hesc.
  apply list_elem_of_In in Hin.
  now apply (escaped_not_delimiter c (Hesc c Hin)).
Qed.

Lemma createWhatsAppLink_escaped_ampersand :
  exists encoded,
    lit "https://wa.me/5511999999999?text=Quero%20pedir%3A%20A%26B%3F"
    = lit "https://wa.me/" ++ Config.WHATSAPP_NUMBER ++ lit "?text=" ++ encoded
    /\ Forall escaped encoded
    /\ (forall c, In c uriDelimiters -> ~ In c encoded).
Proof.
  apply (createWhatsAppLink_escaped Config.WHATSAPP_NUMBER (lit "A&B?") None).
  - reflexivity.
  - discriminate.
  - reflexivity.
Defined.

(** X9.  The path segment [getGoogleMapsUrl] adds after [/search/] is made
    of unescaped characters and percent signs only: it holds no [/], [?] or
    [#], so that the address stays one segment of the path. *)
Theorem getGoogleMapsUrl_escaped addr url :
  code_units (getFullAddress addr) = true ->
  getGoogleMapsUrl addr = Some url ->
  exists encoded,
    url = lit "https://www.google.com/maps/search/" ++ encoded
    /\ Forall escaped encoded
    /\ (forall c, In c uriDelimiters -> ~ In c encoded).
Proof.
  intros Hunits Hurl. unfold getGoogleMapsUrl in Hurl.
  apply fmap_Some in Hurl as (encoded & Henc & ->).
  exists encoded. split; [reflexivity|].
  pose proof (encodeURIComponent_escaped _ Hunits _ Henc) as Hesc.
  split; [exact Hesc|].
  intros c Hdelim Hin. rewrite Forall_forall in Hesc.
  apply list_elem_of_In in Hin.
  now apply (escaped_not_delimiter c (Hesc c Hin)).
Qed.

Lemma getGoogleMapsUrl_escaped_config :
  exists encoded,
    lit "https://www.google.com/maps/search/Rua%20das%20Flores%2C%20123%2C%20Centro%2C%20S%C3%A3o%20Paulo%20-%20SP"
    = lit "https://www.google.com/maps/search/" ++ encoded
    /\ Forall escaped encoded
    /\ (forall c, In c uriDelimiters -> ~ In c encoded).
Proof.
  apply (getGoogleMapsUrl_escaped Config.RESTAURANT_ADDRESS); reflexivity.
Defined.



(** X11.  Two calls of [createWhatsAppLink] without price that return the
    same link were given the same product. *)
Theorem createWhatsAppLink_inj target (product1 product2 url : jsstring) :
  code_units product1 = true -> code_units product2 = true ->
  createWhatsAppLink target product1 None = Some url ->
  createWhatsAppLink target product2 None = Some url ->
  product1 = product2.
Proof.
  intros U1 U2 H1 H2.
  rewrite createWhatsAppLink_no_price in H1, H2 by reflexivity.
  apply fmap_Some in H1 as (e1 & E1 & ->).
  apply fmap_Some in H2 as (e2 & E2 & Heq).
  rewrite !app_assoc in Heq. apply app_inv_head in Heq. subst e2.
  assert (lit "Quero pedir: " ++ product1 = lit "Quero pedir: " ++ product2)
    as Hmsg.
  { apply (encodeURIComponent_inj (lit "Quero pedir: " ++ product1)
             (lit "Quero pedir: " ++ product2) e1); [| |exact E1|exact E2].
    - rewrite code_units_app, U1. reflexivity.
    - rewrite code_units_app, U2. reflexivity. }
  now apply app_inv_head in Hmsg.
Qed.

Lemma createWhatsAppLink_inj_combo :
  lit "Combo" = lit "Com" ++ lit "bo".
Proof.
  apply (createWhatsAppLink_inj Config.WHATSAPP_NUMBER (lit "Combo")
           (lit "Com" ++ lit "bo")
           (lit "https://wa.me/5511999999999?text=Quero%20pedir%3A%20Combo"));
    reflexivity.
Defined.

(** ** Further properties of the address card *)

(** X12.  [getGoogleMapsUrl], [openGoogleMaps] and [openWhatsAppDelivery]
    return on the same addresses: those whose street, neighborhood, city
    and state are all well-formed.  On any other address each of them
    throws; the zipcode and the target play no part. *)
Theorem address_links_return target addr :
  let fields :=
    isWellFormed (street addr) && isWellFormed (neighborhood addr)
    && isWellFormed (city addr) && isWellFormed (state addr) in
  (is_Some (getGoogleMapsUrl addr) <-> fields = true)
  /\ (is_Some (openGoogleMaps addr) <-> fields = true)
  /\ (is_Some (openWhatsAppDelivery target addr) <-> fields = true).
Proof.
  intros fields. unfold openGoogleMaps, getGoogleMapsUrl, openWhatsAppDelivery.
  rewrite !fmap_is_Some, !encodeURIComponent_is_Some.
  rewrite isWellFormed_app_l by reflexivity.
  rewrite getFullAddress_wf. fold fields.
  split; [reflexivity|]. split; reflexivity.
Qed.

(** X13.  Where [navigator.clipboard] is undefined
    [copyAddressToClipboard] throws; where it is defined it writes the
    single line of the address, which is the first line the card displays,
    a comma and a space, and the second line.  Whenever [openGoogleMaps]
    opens a window, it is a new tab on the search link, and decoding what
    follows [/search/] gives the text that is copied. *)
Theorem copyAddressToClipboard_agrees addr :
  code_units (getFullAddress addr) = true ->
  copyAddressToClipboard addr false = None
  /\ (exists line1 line2 line3,
        getFormattedAddressLines addr = [line1; line2; line3]
        /\ copyAddressToClipboard addr true
           = Some (clipboard_writeText (line1 ++ lit ", " ++ line2)))
  /\ (forall url target text,
        openGoogleMaps addr = Some (window_open url target) ->
        copyAddressToClipboard addr true = Some (clipboard_writeText text) ->
        target = lit "_blank"
        /\ take (length (lit "https://www.google.com/maps/search/")) url
           = lit "https://www.google.com/maps/search/"
        /\ decodeURIComponent
             (drop (length (lit "https://www.google.com/maps/search/")) url)
           = Some text).
Proof.
  intros Hunits. split; [reflexivity|]. split.
  - exists (street addr),
      (neighborhood addr ++ lit ", " ++ city addr ++ lit " - " ++ state addr),
      (zipcode addr).
    split; reflexivity.
  - intros url target text Hopen Hcopy.
    unfold copyAddressToClipboard in Hcopy.
    assert (text = getFullAddress addr) as -> by congruence.
    unfold openGoogleMaps, getGoogleMapsUrl in Hopen.
    apply fmap_Some in Hopen as (url' & Hurl & Heq).
    apply fmap_Some in Hurl as (encoded & Henc & ->).
    assert (url = lit "https://www.google.com/maps/search/" ++ encoded
            /\ target = lit "_blank") as [-> ->] by (split; congruence).
    split; [reflexivity|].
    split; [now rewrite take_app_length|].
    rewrite drop_app_length.
    now apply decode_encodeURIComponent with (s := getFullAddress addr).
Qed.

(** The address the page ships with: the text copied, and the text the
    search link decodes to. *)
Lemma copyAddressToClipboard_agrees_config :
  copyAddressToClipboard Config.RESTAURANT_ADDRESS false = None
  /\ copyAddressToClipboard Config.RESTAURANT_ADDRESS true
     = Some (clipboard_writeText
               (lit "Rua das Flores, 123, Centro, S" ++ [227]
                ++ lit "o Paulo - SP"))
  /\ decodeURIComponent
       (lit "Rua%20das%20Flores%2C%20123%2C%20Centro%2C%20S%C3%A3o%20Paulo%20-%20SP")
     = Some (lit "Rua das Flores, 123, Centro, S" ++ [227]
             ++ lit "o Paulo - SP").
Proof.
  destruct (copyAddressToClipboard_agrees Config.RESTAURANT_ADDRESS eq_refl)
    as (Hthrows & (line1 & line2 & line3 & Hlines & Hcopy) & Hagree).
  split; [exact Hthrows|].
  unfold getFormattedAddressLines in Hlines.
  assert (line1 = street Config.RESTAURANT_ADDRESS
          /\ line2 = neighborhood Config.RESTAURANT_ADDRESS ++ lit ", "
                     ++ city Config.RESTAURANT_ADDRESS ++ lit " - "
                     ++ state Config.RESTAURANT_ADDRESS) as [-> ->]
    by (split; congruence).
  split; [exact Hcopy|].
  destruct (Hagree
              (lit "https://www.google.com/maps/search/Rua%20das%20Flores%2C%20123%2C%20Centro%2C%20S%C3%A3o%20Paulo%20-%20SP")
              (lit "_blank") _ eq_refl Hcopy) as (_ & _ & Hdecoded).
  exact Hdecoded.
Defined.

(** ** The length of an encoded text *)

Lemma escapeOctets_length Octets :
  length (escapeOctets Octets) = (3 * length Octets)%nat.
Proof.
  induction Octets as [|B Octets IH]; [reflexivity|].
  cbn [escapeOctets map concat escapeOctet app length].
  fold (escapeOctets Octets). rewrite IH. lia.
Qed.

Lemma utf8_encode_length cp :
  (1 <= length (utf8_encode cp) <= 4)%nat
  /\ (cp < 65536 -> (length (utf8_encode cp) <= 3)%nat).
Proof.
  unfold utf8_encode.
  destruct (N.ltb_spec cp 128); [|destruct (N.ltb_spec cp 2048);
    [|destruct (N.ltb_spec cp 65536)]]; cbn [length]; lia.
Qed.

(** An encoded text is no shorter than the string and at most nine times
    as long: a code unit becomes at most three escaped octets, a surrogate
    pair four. *)
Lemma encodeURIComponent_length (s : jsstring) :
  code_units s = true ->
  forall e, encodeURIComponent s = Some e ->
  (length s <= length e <= 9 * length s)%nat.
Proof.
  remember (length s) as n eqn:Hn. revert s Hn.
  induction n as [n IH] using lt_wf_ind. intros s Hn Hunits e Henc. subst n.
  destruct s as [|C rest]; cbn in Henc.
  { inversion Henc. cbn. lia. }
  cbn in Hunits. apply andb_true_iff in Hunits as [HC Hunits].
  unfold is_code_unit in HC. apply N.ltb_lt in HC.
  destruct (uriUnescaped C) eqn:Hun.
  - destruct (encodeURIComponent rest) as [e'|] eqn:He'; [|discriminate].
    cbn in Henc. inversion Henc; subst e.
    pose proof (IH (length rest) ltac:(cbn; lia) rest eq_refl Hunits e' He').
    cbn [length]. lia.
  - destruct (isLeadingSurrogate C) eqn:Hlead.
    + destruct rest as [|d rest']; [discriminate|].
      destruct (isTrailingSurrogate d) eqn:Htrail; [|discriminate].
      cbn in Hunits. apply andb_true_iff in Hunits as [Hd Hunits].
      destruct (encodeURIComponent rest') as [e'|] eqn:He'; [|discriminate].
      cbn in Henc. inversion Henc; subst e.
      pose proof (IH (length rest') ltac:(cbn; lia) rest' eq_refl Hunits e' He').
      pose proof (utf8_encode_length (UTF16SurrogatePairToCodePoint C d))
        as [Hlen _].
      rewrite length_app, escapeOctets_length. cbn [length]. lia.
    + destruct (isTrailingSurrogate C); [discriminate|].
      destruct (encodeURIComponent rest) as [e'|] eqn:He'; [|discriminate].
      cbn in Henc. inversion Henc; subst e.
      pose proof (IH (length rest) ltac:(cbn; lia) rest eq_refl Hunits e' He').
      pose proof (utf8_encode_length C) as [Hlen Hbmp].
      specialize (Hbmp HC).
      rewrite length_app, escapeOctets_length. cbn [length]. lia.
Qed.

(** X14.  The link of [createWhatsAppLink] without price is the fixed
    part, the target and a text that is no shorter than the message
    [Quero pedir: product] and at most nine times as long. *)
Theorem createWhatsAppLink_length target product url :
  code_units product = true ->
  createWhatsAppLink target product None = Some url ->
  (20 + length target + (13 + length product) <= length url
   <= 20 + length target + 9 * (13 + length product))%nat.
Proof.
  intros Uprod Hurl.
  rewrite createWhatsAppLink_no_price in Hurl by reflexivity.
  apply fmap_Some in Hurl as (encoded & Henc & ->).
  apply encodeURIComponent_length in Henc.
  - rewrite !length_app in *.
    change (length (lit "https://wa.me/")) with 14%nat.
    change (length (lit "?text=")) with 6%nat.
    change (length (lit "Quero pedir: ")) with 13%nat in Henc. lia.
  - rewrite code_units_app, Uprod. reflexivity.
Qed.

Lemma createWhatsAppLink_length_combo :
  (20 + 13 + (13 + 5)
   <= length (lit "https://wa.me/5511999999999?text=Quero%20pedir%3A%20Combo")
   <= 20 + 13 + 9 * (13 + 5))%nat.
Proof.
  apply (createWhatsAppLink_length Config.WHATSAPP_NUMBER (lit "Combo"));
    reflexivity.
Defined.
